(** * entt::compressed_pair

    A shallow embedding of [src/entt/core/compressed_pair.hpp]: the two
    specialisations of [internal::compressed_pair_element], the class
    template [compressed_pair] with its constructors, accessors and [swap],
    and the free function [swap].

    C++ objects live in a store indexed by locations; a C++ reference is a
    location together with a path into the object found there, so that two
    references may denote the same object.  Template parameters are
    described by a record of the operations that the header uses on them.
    The defaulted move constructor and move assignment leave their source in
    a state that the element types decide; they take what a move leaves
    behind from a class of their own, [Movable]. *)

From stdpp Require Import base option list gmap strings.
From Stdlib Require Import ZArith.

Set Default Proof Using "Type".

(** ** Template parameters *)

(** What the header needs from a type [Type]: its values, the outcome of the
    trait [is_ebco_eligible_v] (declared in [type_traits.hpp], outside this
    header, hence a field here), and the initialisations,
    the assignment and the exchange that the header writes.  [Val] is the
    type of the values that may appear in a tuple of constructor arguments;
    an initialisation that does not compile is [None]. *)
Record cpp_type (Val : Type) : Type := CppType {
  carrier :> Type;
  is_ebco_eligible_v : bool;
  (* Type{} *)
  value_init : option carrier;
  (* Type{v0, ..., vn} *)
  list_init : list Val -> option carrier;
  (* Type{x} for an lvalue x of type Type *)
  copy_construct : carrier -> carrier;
  (* Type{std::move(x)}: the value of the new object *)
  move_construct : carrier -> carrier;
  (* dst = src, as a function of the old value of dst and of src *)
  copy_assign : carrier -> carrier -> carrier;
  (* using std::swap; swap(a, b): the new values of a and of b *)
  adl_swap : carrier -> carrier -> carrier * carrier
}.

Arguments carrier {Val} _.
Arguments is_ebco_eligible_v {Val} _.
Arguments value_init {Val} _.
Arguments list_init {Val} _ _.
Arguments copy_construct {Val} _ _.
Arguments move_construct {Val} _ _.
Arguments copy_assign {Val} _ _ _.
Arguments adl_swap {Val} _ _ _.

(** std::is_default_constructible_v<Type>: [Type] can be initialised from nothing. *)
Definition is_default_constructible_v {Val} (T : cpp_type Val) : bool :=
  match value_init T with Some _ => true | None => false end.

(** An argument bound to a forwarding reference [Args &&] and passed on with
    [std::forward<Args>]: it keeps its value category. *)
Inductive forwarded (A : Type) : Type :=
| lvalue (x : A)
| rvalue (x : A).

Arguments lvalue {A} x.
Arguments rvalue {A} x.

Definition referent {A} (f : forwarded A) : A :=
  match f with lvalue x => x | rvalue x => x end.

(** [Type{std::forward<Args>(args)}] is well formed when [Type] can be
    initialised from [Args]; an instance gives the value built. *)
Class Constructible {Val} (T : cpp_type Val) (Args : Type) : Type :=
  direct_init : Args -> T.

(** From an argument of type [Type] itself this is the copy or the move
    constructor, according to the value category. *)
#[export] Instance constructible_same {Val} (T : cpp_type Val) :
  Constructible T (forwarded T) :=
  fun f => match f with
           | lvalue x => copy_construct T x
           | rvalue x => move_construct T x
           end.

(** The named requirements of the C++ standard on a value type, with
    equality of values for "equivalent".  A type is free to define these
    operations otherwise; what is proved below about the values that a pair
    holds after a copy or an exchange is proved for types that meet them. *)
Definition CopyConstructible {Val} (T : cpp_type Val) : Prop :=
  forall x : T, copy_construct T x = x.

Definition MoveConstructible {Val} (T : cpp_type Val) : Prop :=
  forall x : T, move_construct T x = x.

Definition CopyAssignable {Val} (T : cpp_type Val) : Prop :=
  forall dst src : T, copy_assign T dst src = src.

Definition Swappable {Val} (T : cpp_type Val) : Prop :=
  forall a b : T, adl_swap T a b = (b, a).

(** ** References as paths *)

Record lens (S A : Type) : Type := Lens {
  view : S -> A;
  update : S -> A -> S
}.

Arguments Lens {S A} _ _.
Arguments view {S A} _ _.
Arguments update {S A} _ _ _.

Definition lens_compose {S A B} (outer : lens S A) (inner : lens A B) : lens S B :=
  Lens (fun s => view inner (view outer s))
       (fun s b => update outer s (update inner (view outer s) b)).

(** ** namespace internal *)

Module internal.

(** The two definitions of [compressed_pair_element<Type, Tag>].  The index
    is the condition of the partial specialisation: the primary template
    has a data member [value], the specialisation derives from [Type]. *)
Inductive compressed_pair_element {Val} (T : cpp_type Val) (Tag : nat) : bool -> Type :=
| boxed (value : T) : compressed_pair_element T Tag false
| merged (base : T) : compressed_pair_element T Tag true.

Arguments boxed {Val T Tag} value.
Arguments merged {Val T Tag} base.

Section Element.

Context {Val : Type} (T : cpp_type Val) (Tag : nat).

Abbreviation element := (compressed_pair_element T Tag).

(** compressed_pair_element(), enabled when Type is default constructible:
    [value{}] in the primary template, [Type{}] in the specialisation. *)
Definition element_default (ebco : bool) : option (element ebco) :=
  match ebco return option (element ebco) with
  | false => if is_default_constructible_v T then boxed <$> value_init T else None
  | true => if is_default_constructible_v T then merged <$> value_init T else None
  end.

(** compressed_pair_element(Args &&args):
    [value{std::forward<Args>(args)}], resp. [Type{std::forward<Args>(args)}].
    The overload is disabled when [Args] is the element type itself, which
    leaves the copy of an element to [element_copy] below. *)
Definition element_forward {Args} `{!Constructible T Args}
    (ebco : bool) (args : Args) : element ebco :=
  match ebco return element ebco with
  | false => boxed (direct_init args)
  | true => merged (direct_init args)
  end.

(** std::get<Index>(args), ill formed when Index is out of range *)
Definition std_get (Index : nat) (args : list Val) : option Val := args !! Index.

(** The pack expansion [std::get<Index>(args)...] over the indices given. *)
Definition expand_get (args : list Val) (Index : list nat) : option (list Val) :=
  mapM (fun i => std_get i args) Index.

(** compressed_pair_element(std::tuple<Args...> args, std::index_sequence<Index...>):
    [value{std::get<Index>(args)...}], resp. [Type{std::get<Index>(args)...}]. *)
Definition element_piecewise (ebco : bool) (args : list Val) (Index : list nat)
    : option (element ebco) :=
  match ebco return option (element ebco) with
  | false => pack ← expand_get args Index; boxed <$> list_init T pack
  | true => pack ← expand_get args Index; merged <$> list_init T pack
  end.

(** The implicitly declared copy constructor copies the member, resp. the base. *)
Definition element_copy {ebco} (other : element ebco) : element ebco :=
  match other in compressed_pair_element _ _ b return element b with
  | boxed value => boxed (copy_construct T value)
  | merged base => merged (copy_construct T base)
  end.

(** const Type & get() const: [return value;], resp. [return *this;] *)
Definition get_const {ebco} (e : element ebco) : T :=
  match e with
  | boxed value => value
  | merged base => base
  end.

(** The implicitly declared copy assignment assigns the member of the other
    object to the member, resp. its base to the base. *)
Definition element_assign {ebco} (this other : element ebco) : element ebco :=
  match this in compressed_pair_element _ _ b return element b -> element b with
  | boxed value => fun other => boxed (copy_assign T value (get_const other))
  | merged base => fun other => merged (copy_assign T base (get_const other))
  end other.

(** Type & get(): the same object, as something that can be written to. *)
Definition get {ebco} : lens (element ebco) T :=
  Lens get_const
       (fun e v =>
          match e in compressed_pair_element _ _ b return element b with
          | boxed _ => boxed v
          | merged _ => merged v
          end).

End Element.

End internal.

(** ** Objects in a store *)

(** The outcome of running a piece of C++ code from a store. *)
Inductive result (S A : Type) : Type :=
| Ok (a : A) (s : S)
(* the code does not compile: a disabled overload, an ill-formed initialisation *)
| Rejected
(* an object is used outside its lifetime *)
| Undefined.

Arguments Ok {S A} a s.
Arguments Rejected {S A}.
Arguments Undefined {S A}.

Definition action (S A : Type) : Type := S -> result S A.

#[export] Instance action_ret {S} : MRet (action S) :=
  fun A a s => Ok a s.

#[export] Instance action_bind {S} : MBind (action S) :=
  fun A B k m s =>
    match m s with
    | Ok a s' => k a s'
    | Rejected => Rejected
    | Undefined => Undefined
    end.

Definition reject {S A} : action S A := fun _ => Rejected.

(** An initialisation known at compile time to be well formed or not. *)
Definition well_formed {S A} (o : option A) : action S A :=
  match o with
  | Some a => mret a
  | None => reject
  end.

Abbreviation loc := positive.

Section Store.

Context {Obj : Type}.

Definition load (l : loc) : action (gmap loc Obj) Obj :=
  fun s => match s !! l with
           | Some o => Ok o s
           | None => Undefined
           end.

Definition store (l : loc) (o : Obj) : action (gmap loc Obj) unit :=
  fun s => match s !! l with
           | Some _ => Ok tt (<[l := o]> s)
           | None => Undefined
           end.

(** A new object, at a location that holds none. *)
Definition alloc (o : Obj) : action (gmap loc Obj) loc :=
  fun s => let l := fresh (dom s) in Ok l (<[l := o]> s).

(** [T &]: an object of the store and a path to one of its parts. *)
Record ref (T : Type) : Type := Ref {
  target : loc;
  path : lens Obj T
}.

Arguments Ref {T} _ _.
Arguments target {T} _.
Arguments path {T} _.

(** [const T &]: the same without the means to write. *)
Record const_ref (T : Type) : Type := ConstRef {
  const_target : loc;
  const_path : Obj -> T
}.

Arguments ConstRef {T} _ _.
Arguments const_target {T} _.
Arguments const_path {T} _.

Definition read {T} (r : ref T) : action (gmap loc Obj) T :=
  o ← load (target r); mret (view (path r) o).

Definition read_const {T} (r : const_ref T) : action (gmap loc Obj) T :=
  o ← load (const_target r); mret (const_path r o).

Definition write {T} (r : ref T) (v : T) : action (gmap loc Obj) unit :=
  o ← load (target r); store (target r) (update (path r) o v).

End Store.

Arguments Ref {Obj T} _ _.
Arguments target {Obj T} _.
Arguments path {Obj T} _.
Arguments ConstRef {Obj T} _ _.
Arguments const_target {Obj T} _.
Arguments const_path {Obj T} _.

(** [dst = src] for an lvalue [dst] of type [T]: the copy assignment of [T]. *)
Definition assign {Obj Val} {T : cpp_type Val} (dst : ref (Obj := Obj) T) (src : T)
    : action (gmap loc Obj) unit :=
  old ← read dst; write dst (copy_assign T old src).

(** [using std::swap; swap(a, b);] on two lvalues of type [T] *)
Definition using_std_swap {Obj Val} {T : cpp_type Val} (a b : ref (Obj := Obj) T)
    : action (gmap loc Obj) unit :=
  x ← read a;
  y ← read b;
  write a (adl_swap T x y).1;;
  write b (adl_swap T x y).2.

(** ** compressed_pair<First, Second> *)

Section Pair.

Context {Val : Type} (First Second : cpp_type Val).

(** The class derives from [compressed_pair_element<First, 0u>] and from
    [compressed_pair_element<Second, 1u>]; each base is the primary template
    or the specialisation according to [is_ebco_eligible_v]. *)
Record compressed_pair : Type := CompressedPair {
  first_base : internal.compressed_pair_element First 0 (is_ebco_eligible_v First);
  second_base : internal.compressed_pair_element Second 1 (is_ebco_eligible_v Second)
}.

Abbreviation heap := (gmap loc compressed_pair).

(** The conversion of [*this] to [first_base &]. *)
Definition cast_first_base : lens compressed_pair _ :=
  Lens first_base (fun p e => CompressedPair e (second_base p)).

(** The conversion of [*this] to [second_base &]. *)
Definition cast_second_base : lens compressed_pair _ :=
  Lens second_base (fun p e => CompressedPair (first_base p) e).

(** Where the references returned by [first()] and [second()] lead: to the
    base, then to what [get()] returns there. *)
Definition first_path : lens compressed_pair First :=
  lens_compose cast_first_base (internal.get First 0).

Definition second_path : lens compressed_pair Second :=
  lens_compose cast_second_base (internal.get Second 1).

(** compressed_pair(): enabled when both types are default constructible;
    [first_base{}, second_base{}]. *)
Definition compressed_pair_default : action heap loc :=
  if is_default_constructible_v First && is_default_constructible_v Second
  then
    f ← well_formed (internal.element_default First 0 _);
    s ← well_formed (internal.element_default Second 1 _);
    alloc (CompressedPair f s)
  else reject.

(** compressed_pair(const compressed_pair &other) = default *)
Definition compressed_pair_copy (other : loc) : action heap loc :=
  o ← load other;
  alloc (CompressedPair (internal.element_copy First 0 (first_base o))
                        (internal.element_copy Second 1 (second_base o))).

(** compressed_pair(Arg &&arg, Other &&other):
    [first_base{std::forward<Arg>(arg)}, second_base{std::forward<Other>(other)}] *)
Definition compressed_pair_values {Arg Other}
    `{!Constructible First Arg} `{!Constructible Second Other}
    (arg : Arg) (other : Other) : action heap loc :=
  alloc (CompressedPair (internal.element_forward First 0 _ arg)
                        (internal.element_forward Second 1 _ other)).

(** std::index_sequence_for<Args...>{}: 0, 1, ..., sizeof...(Args) - 1 *)
Definition index_sequence_for (args : list Val) : list nat := seq 0 (length args).

(** compressed_pair(std::piecewise_construct_t, std::tuple<Args...> args, std::tuple<Other...> other):
    [first_base{std::move(args), std::index_sequence_for<Args...>{}},
     second_base{std::move(other), std::index_sequence_for<Other...>{}}] *)
Definition compressed_pair_piecewise (args other : list Val) : action heap loc :=
  f ← well_formed (internal.element_piecewise First 0 _ args (index_sequence_for args));
  s ← well_formed (internal.element_piecewise Second 1 _ other (index_sequence_for other));
  alloc (CompressedPair f s).

(** compressed_pair & operator=(const compressed_pair &other) = default:
    the bases are assigned one after the other, in declaration order. *)
Definition copy_assignment (this other : loc) : action heap loc :=
  p ← load this;
  o ← load other;
  store this (CompressedPair (internal.element_assign First 0 (first_base p) (first_base o))
                             (second_base p));;
  p ← load this;
  o ← load other;
  store this (CompressedPair (first_base p)
                             (internal.element_assign Second 1 (second_base p) (second_base o)));;
  mret this.

(** First & first(): [*this] converted to [first_base &], then [get()] *)
Definition first (this : loc) : action heap (ref First) :=
  _ ← load this;
  mret (Ref this first_path).

(** const First & first() const *)
Definition first_const (this : loc) : action heap (const_ref First) :=
  _ ← load this;
  mret (ConstRef this (fun p => internal.get_const First 0 (first_base p))).

(** Second & second(): [*this] converted to [second_base &], then [get()] *)
Definition second (this : loc) : action heap (ref Second) :=
  _ ← load this;
  mret (Ref this second_path).

(** const Second & second() const *)
Definition second_const (this : loc) : action heap (const_ref Second) :=
  _ ← load this;
  mret (ConstRef this (fun p => internal.get_const Second 1 (second_base p))).

(** void swap(compressed_pair &other):
    [using std::swap; swap(first(), other.first()); swap(second(), other.second());] *)
Definition member_swap (this other : loc) : action heap unit :=
  a ← first this;
  b ← first other;
  using_std_swap a b;;
  c ← second this;
  d ← second other;
  using_std_swap c d.

(** The free function
    [void swap(compressed_pair<First, Second> &lhs, compressed_pair<First, Second> &rhs)]:
    [lhs.swap(rhs);] *)
Definition swap (lhs rhs : loc) : action heap unit :=
  member_swap lhs rhs.

End Pair.

(** ** Uses of the accessors *)

Section Uses.

Context {Val : Type} (First Second : cpp_type Val).

(** The value held by the first, resp. second, base of an object. *)
Definition first_of (o : compressed_pair First Second) : First :=
  internal.get_const First 0 (first_base First Second o).

Definition second_of (o : compressed_pair First Second) : Second :=
  internal.get_const Second 1 (second_base First Second o).

(** [this.first()] and [this.second()] read as values. *)
Definition first_value (this : loc) : action (gmap loc (compressed_pair First Second)) First :=
  r ← first First Second this; read r.

Definition second_value (this : loc) : action (gmap loc (compressed_pair First Second)) Second :=
  r ← second First Second this; read r.

(** The same through the const overloads. *)
Definition first_const_value (this : loc)
    : action (gmap loc (compressed_pair First Second)) First :=
  r ← first_const First Second this; read_const r.

Definition second_const_value (this : loc)
    : action (gmap loc (compressed_pair First Second)) Second :=
  r ← second_const First Second this; read_const r.

(** [this.first() = v;] and [this.second() = v;] *)
Definition assign_first (this : loc) (v : First)
    : action (gmap loc (compressed_pair First Second)) unit :=
  r ← first First Second this; assign r v.

Definition assign_second (this : loc) (v : Second)
    : action (gmap loc (compressed_pair First Second)) unit :=
  r ← second First Second this; assign r v.

(** What the four accessor uses observe on the object at [l]: [this.first()]
    is [a] and [this.second()] is [b], and the store stays as it is. *)
Definition holds (s : gmap loc (compressed_pair First Second)) (l : loc)
    (a : First) (b : Second) : Prop :=
  first_value l s = Ok a s /\
  second_value l s = Ok b s /\
  first_const_value l s = Ok a s /\
  second_const_value l s = Ok b s.

(** What one of the two exchanges of [swap] leaves behind in [s'], started
    from [s]: the objects at [p] and [q] hold [fp], [sp] and [fq], [sq], and
    the other objects are those of [s]. *)
Definition exchanged (s : gmap loc (compressed_pair First Second)) (p q : loc)
    (s' : gmap loc (compressed_pair First Second))
    (fp fq : First) (sp sq : Second) : Prop :=
  (exists P' Q',
    s' !! p = Some P' /\ s' !! q = Some Q' /\
    first_of P' = fp /\ second_of P' = sp /\
    first_of Q' = fq /\ second_of Q' = sq) /\
  forall l, l <> p -> l <> q -> s' !! l = s !! l.

End Uses.

(** ** Some element types *)

Module Types.

(** Values that are written in tuples of constructor arguments: a tuple
    element of type [int], with its value (within the range of [int]), or
    one of type [std::string]. *)
Inductive val : Type :=
| VInt (n : Z)
| VStr (s : string).

(** int *)
Definition int : cpp_type val := {|
  carrier := Z;
  is_ebco_eligible_v := false;
  value_init := Some 0%Z;
  list_init := fun vs => match vs with
                         | [] => Some 0%Z
                         | [VInt n] => Some n
                         | _ => None
                         end;
  copy_construct := fun x => x;
  move_construct := fun x => x;
  copy_assign := fun _ src => src;
  adl_swap := fun a b => (b, a)
|}.

(** struct empty {}; *)
Definition empty : cpp_type val := {|
  carrier := unit;
  is_ebco_eligible_v := true;
  value_init := Some tt;
  list_init := fun vs => match vs with
                         | [] => Some tt
                         | _ => None
                         end;
  copy_construct := fun x => x;
  move_construct := fun x => x;
  copy_assign := fun _ src => src;
  adl_swap := fun a b => (b, a)
|}.

(** struct point { point(int, int, int); int x, y, z; };
    without a default constructor, with a swap of its own found by ADL. *)
Definition point : cpp_type val := {|
  carrier := Z * Z * Z;
  is_ebco_eligible_v := false;
  value_init := None;
  list_init := fun vs => match vs with
                         | [VInt x; VInt y; VInt z] => Some (x, y, z)
                         | _ => None
                         end;
  copy_construct := fun p => p;
  move_construct := fun p => p;
  copy_assign := fun _ src => src;
  adl_swap := fun a b =>
    let '(ax, ay, az) := a in
    let '(bx, by_, bz) := b in
    ((bx, by_, bz), (ax, ay, az))
|}.

(** struct name { name(std::string, std::string); std::string given, family; }; *)
Definition name : cpp_type val := {|
  carrier := string * string;
  is_ebco_eligible_v := false;
  value_init := None;
  list_init := fun vs => match vs with
                         | [VStr g; VStr f] => Some (g, f)
                         | _ => None
                         end;
  copy_construct := fun p => p;
  move_construct := fun p => p;
  copy_assign := fun _ src => src;
  adl_swap := fun a b => (b, a)
|}.

End Types.

(** Some objects, for examples. *)
Module Samples.

(** compressed_pair<int, int>{1, 2} *)
Definition ints : compressed_pair Types.int Types.int :=
  CompressedPair Types.int Types.int
    (internal.boxed (T := Types.int) 1%Z) (internal.boxed (T := Types.int) 2%Z).

(** compressed_pair<empty, int>{empty{}, 3} and compressed_pair<empty, int>{empty{}, 4} *)
Definition three : compressed_pair Types.empty Types.int :=
  CompressedPair Types.empty Types.int
    (internal.merged (T := Types.empty) tt) (internal.boxed (T := Types.int) 3%Z).

Definition four : compressed_pair Types.empty Types.int :=
  CompressedPair Types.empty Types.int
    (internal.merged (T := Types.empty) tt) (internal.boxed (T := Types.int) 4%Z).

(** compressed_pair<point, name>, both bases from the primary template *)
Definition origin : compressed_pair Types.point Types.name :=
  CompressedPair Types.point Types.name
    (internal.boxed (T := Types.point) (0, 0, 0)%Z)
    (internal.boxed (T := Types.name) ("o", "origin")).

Definition unit_x : compressed_pair Types.point Types.name :=
  CompressedPair Types.point Types.name
    (internal.boxed (T := Types.point) (1, 0, 0)%Z)
    (internal.boxed (T := Types.name) ("x", "axis")).

(** Two stores of two objects each. *)
Definition mixed : gmap loc (compressed_pair Types.empty Types.int) :=
  {[1%positive := three; 2%positive := four]}.

Definition all_boxed : gmap loc (compressed_pair Types.point Types.name) :=
  {[1%positive := origin; 2%positive := unit_x]}.

End Samples.

(** ** Moves *)

(** What the defaulted move operations need from a type beyond [cpp_type]:
    the state in which a move leaves its source. *)
Class Movable {Val} (T : cpp_type Val) : Type := {
  (* the value of x after Type{std::move(x)} *)
  moved_from : T -> T;
  (* dst = std::move(src) on two objects: the new values of dst and of src *)
  move_assign : T -> T -> T * T;
  (* x = std::move(x) *)
  self_move_assign : T -> T
}.

Arguments moved_from {Val} T {_} _.
Arguments move_assign {Val} T {_} _ _.
Arguments self_move_assign {Val} T {_} _.

(** The requirement of the standard on move assignment: the target takes
    the value of the source. *)
Definition MoveAssignable {Val} (T : cpp_type Val) `{!Movable T} : Prop :=
  forall dst src : T, (move_assign T dst src).1 = src.

Section ElementMoves.

Context {Val : Type} (T : cpp_type Val) `{!Movable T} (Tag : nat).

(** The implicitly declared move constructor of an element moves the member,
    resp. the base: the new element, and the one moved from afterwards. *)
Definition element_move {ebco} (other : internal.compressed_pair_element T Tag ebco)
    : internal.compressed_pair_element T Tag ebco
      * internal.compressed_pair_element T Tag ebco :=
  match other in internal.compressed_pair_element _ _ b
        return internal.compressed_pair_element T Tag b
               * internal.compressed_pair_element T Tag b with
  | internal.boxed value =>
      (internal.boxed (move_construct T value), internal.boxed (moved_from T value))
  | internal.merged base =>
      (internal.merged (move_construct T base), internal.merged (moved_from T base))
  end.

(** The implicitly declared move assignment of an element, on two elements:
    this one and the other one afterwards. *)
Definition element_move_assign {ebco}
    (this other : internal.compressed_pair_element T Tag ebco)
    : internal.compressed_pair_element T Tag ebco
      * internal.compressed_pair_element T Tag ebco :=
  let r := move_assign T (internal.get_const T Tag this) (internal.get_const T Tag other) in
  (update (internal.get T Tag) this r.1, update (internal.get T Tag) other r.2).

(** The same on one element, assigned from itself. *)
Definition element_self_move_assign {ebco}
    (this : internal.compressed_pair_element T Tag ebco)
    : internal.compressed_pair_element T Tag ebco :=
  update (internal.get T Tag) this (self_move_assign T (internal.get_const T Tag this)).

End ElementMoves.

Section PairMoves.

Context {Val : Type} (First Second : cpp_type Val).
Context `{!Movable First} `{!Movable Second}.

(** compressed_pair(compressed_pair &&other) = default: the bases of the new
    object are move constructed from those of [other]. *)
Definition compressed_pair_move (other : loc)
    : action (gmap loc (compressed_pair First Second)) loc :=
  o ← load other;
  store other
    (CompressedPair First Second
       (element_move First 0 (first_base First Second o)).2
       (element_move Second 1 (second_base First Second o)).2);;
  alloc
    (CompressedPair First Second
       (element_move First 0 (first_base First Second o)).1
       (element_move Second 1 (second_base First Second o)).1).

(** compressed_pair & operator=(compressed_pair &&other) = default: the bases
    are move assigned one after the other; when [other] is [*this] each base
    is move assigned from itself. *)
Definition move_assignment (this other : loc)
    : action (gmap loc (compressed_pair First Second)) loc :=
  if decide (this = other) then
    p ← load this;
    store this
      (CompressedPair First Second
         (element_self_move_assign First 0 (first_base First Second p))
         (second_base First Second p));;
    p ← load this;
    store this
      (CompressedPair First Second
         (first_base First Second p)
         (element_self_move_assign Second 1 (second_base First Second p)));;
    mret this
  else
    p ← load this;
    o ← load other;
    store this
      (CompressedPair First Second
         (element_move_assign First 0
            (first_base First Second p) (first_base First Second o)).1
         (second_base First Second p));;
    store other
      (CompressedPair First Second
         (element_move_assign First 0
            (first_base First Second p) (first_base First Second o)).2
         (second_base First Second o));;
    p ← load this;
    o ← load other;
    store this
      (CompressedPair First Second
         (first_base First Second p)
         (element_move_assign Second 1
            (second_base First Second p) (second_base First Second o)).1);;
    store other
      (CompressedPair First Second
         (first_base First Second o)
         (element_move_assign Second 1
            (second_base First Second p) (second_base First Second o)).2);;
    mret this.

End PairMoves.

(** Moves of the sample types: an [int] keeps its value when moved from, an
    [empty] has but one, a [name] is left with two empty strings, also when
    it is move assigned from itself, and a [point] is left as it was. *)
#[export] Instance int_movable : Movable Types.int := {|
  moved_from := fun x => x;
  move_assign := fun _ src => (src, src);
  self_move_assign := fun x => x
|}.

#[export] Instance empty_movable : Movable Types.empty := {|
  moved_from := fun x => x;
  move_assign := fun _ src => (src, src);
  self_move_assign := fun x => x
|}.

#[export] Instance point_movable : Movable Types.point := {|
  moved_from := fun x => x;
  move_assign := fun _ src => (src, src);
  self_move_assign := fun x => x
|}.

#[export] Instance name_movable : Movable Types.name :=
  @Build_Movable _ Types.name
    (fun _ => (EmptyString, EmptyString))
    (fun _ src => (src, (EmptyString, EmptyString)))
    (fun _ => (EmptyString, EmptyString)).

(** [int{b}] for a [bool] b: a conversion that [int] accepts in braces. *)
#[export] Instance int_from_bool : Constructible Types.int bool :=
  fun b => if b then 1%Z else 0%Z.

(** ** One type under the other layout *)

(** [T] with the outcome of [is_ebco_eligible_v] replaced: the same values
    and the same operations, stored by the other element template. *)
Definition relayout {Val} (T : cpp_type Val) (ebco : bool) : cpp_type Val := {|
  carrier := carrier T;
  is_ebco_eligible_v := ebco;
  value_init := value_init T;
  list_init := list_init T;
  copy_construct := copy_construct T;
  move_construct := move_construct T;
  copy_assign := copy_assign T;
  adl_swap := adl_swap T
|}.

Section Relayout.

Context {Val : Type} (First Second : cpp_type Val) (ebco1 ebco2 : bool).

(** Two objects of [compressed_pair<First, Second>], one under the layout
    that the traits of [First] and [Second] give and one under the layout
    [ebco1], [ebco2], holding the same two values. *)
Definition similar (o : compressed_pair First Second)
    (o' : compressed_pair (relayout First ebco1) (relayout Second ebco2)) : Prop :=
  first_of First Second o = first_of (relayout First ebco1) (relayout Second ebco2) o' /\
  second_of First Second o = second_of (relayout First ebco1) (relayout Second ebco2) o'.

(** Two stores with objects at the same locations, similar one by one. *)
Definition similar_stores (s : gmap loc (compressed_pair First Second))
    (s' : gmap loc (compressed_pair (relayout First ebco1) (relayout Second ebco2)))
    : Prop :=
  forall l : loc,
    match s !! l, s' !! l with
    | Some o, Some o' => similar o o'
    | None, None => True
    | _, _ => False
    end.

(** Two runs with the same outcome: both return, with related values and
    similar stores, or both are rejected, or both undefined. *)
Definition agree_with {A A' : Type} (R : A -> A' -> Prop)
    (r : result (gmap loc (compressed_pair First Second)) A)
    (r' : result (gmap loc (compressed_pair (relayout First ebco1) (relayout Second ebco2))) A')
    : Prop :=
  match r, r' with
  | Ok a t, Ok a' t' => R a a' /\ similar_stores t t'
  | Rejected, Rejected => True
  | Undefined, Undefined => True
  | _, _ => False
  end.

(** The same with equal values returned. *)
Definition agree {A : Type}
    (r : result (gmap loc (compressed_pair First Second)) A)
    (r' : result (gmap loc (compressed_pair (relayout First ebco1) (relayout Second ebco2))) A)
    : Prop :=
  agree_with eq r r'.

(** Two pieces of code that agree whenever started from similar stores. *)
Definition agree_from_similar {A A' : Type} (R : A -> A' -> Prop)
    (m : action (gmap loc (compressed_pair First Second)) A)
    (m' : action (gmap loc (compressed_pair (relayout First ebco1) (relayout Second ebco2))) A')
    : Prop :=
  forall s s', similar_stores s s' -> agree_with R (m s) (m' s').

(** Two references to the same part of similar objects. *)
Definition similar_refs {T : Type}
    (r : ref (Obj := compressed_pair First Second) T)
    (r' : ref (Obj := compressed_pair (relayout First ebco1) (relayout Second ebco2)) T)
    : Prop :=
  target r = target r' /\
  forall o o', similar o o' ->
    view (path r) o = view (path r') o' /\
    forall v, similar (update (path r) o v) (update (path r') o' v).

Definition similar_const_refs {T : Type}
    (r : const_ref (Obj := compressed_pair First Second) T)
    (r' : const_ref (Obj := compressed_pair (relayout First ebco1) (relayout Second ebco2)) T)
    : Prop :=
  const_target r = const_target r' /\
  forall o o', similar o o' -> const_path r o = const_path r' o'.

End Relayout.

(** The store [Samples.mixed] with the first base boxed as well. *)
Definition mixed_boxed
    : gmap loc (compressed_pair (relayout Types.empty false) (relayout Types.int false)) :=
  <[1%positive := CompressedPair (relayout Types.empty false) (relayout Types.int false)
                    (internal.boxed (T := relayout Types.empty false) tt)
                    (internal.boxed (T := relayout Types.int false) 3%Z)]>
    (<[2%positive := CompressedPair (relayout Types.empty false) (relayout Types.int false)
                       (internal.boxed (T := relayout Types.empty false) tt)
                       (internal.boxed (T := relayout Types.int false) 4%Z)]> ∅).

(** * Properties *)

(** ** Running actions *)

Section RunStore.

Context {Obj : Type}.

Implicit Types (s : gmap loc Obj) (l : loc) (o : Obj).

Lemma run_bind {S A B} (m : action S A) (k : A -> action S B) (st : S) :
  (m ≫= k) st =
  match m st with
  | Ok a st' => k a st'
  | Rejected => Rejected
  | Undefined => Undefined
  end.
Proof. reflexivity. Qed.

Lemma run_ret {S A} (a : A) (st : S) : (mret a : action S A) st = Ok a st.
Proof. reflexivity. Qed.

Lemma load_Some s l o : s !! l = Some o -> load l s = Ok o s.
Proof. intros H. unfold load. by rewrite H. Qed.

Lemma store_Some s l o o' : s !! l = Some o -> store l o' s = Ok tt (<[l := o']> s).
Proof. intros H. unfold store. by rewrite H. Qed.

Lemma alloc_fresh s : s !! fresh (dom s) = None.
Proof. apply not_elem_of_dom, is_fresh. Qed.

Lemma read_Some {T} (r : ref (Obj := Obj) T) s o :
  s !! target r = Some o -> read r s = Ok (view (path r) o) s.
Proof. intros H. unfold read. by rewrite run_bind, (load_Some _ _ _ H). Qed.

Lemma read_const_Some {T} (r : const_ref (Obj := Obj) T) s o :
  s !! const_target r = Some o -> read_const r s = Ok (const_path r o) s.
Proof. intros H. unfold read_const. by rewrite run_bind, (load_Some _ _ _ H). Qed.

Lemma write_Some {T} (r : ref (Obj := Obj) T) v s o :
  s !! target r = Some o ->
  write r v s = Ok tt (<[target r := update (path r) o v]> s).
Proof.
  intros H. unfold write.
  rewrite run_bind, (load_Some _ _ _ H). by apply store_Some with o.
Qed.

Lemma assign_Some {Val} {T : cpp_type Val} (r : ref (Obj := Obj) T) v s o :
  s !! target r = Some o ->
  assign r v s =
  Ok tt (<[target r := update (path r) o (copy_assign T (view (path r) o) v)]> s).
Proof.
  intros H. unfold assign.
  rewrite run_bind, (read_Some _ _ _ H). by apply write_Some.
Qed.

(** The exchange of two lvalues: the second write sees the first one when
    both references lead into the same object. *)
Lemma using_std_swap_Some {Val} {T : cpp_type Val} (a b : ref (Obj := Obj) T) s oa ob :
  s !! target a = Some oa ->
  s !! target b = Some ob ->
  let x := view (path a) oa in
  let y := view (path b) ob in
  let oa' := update (path a) oa (adl_swap T x y).1 in
  let ob' := if decide (target a = target b) then oa' else ob in
  using_std_swap a b s =
  Ok tt (<[target b := update (path b) ob' (adl_swap T x y).2]> (<[target a := oa']> s)).
Proof.
  intros Ha Hb x y oa' ob'. unfold using_std_swap.
  rewrite run_bind, (read_Some _ _ _ Ha).
  rewrite run_bind, (read_Some _ _ _ Hb).
  rewrite run_bind, (write_Some _ _ _ _ Ha).
  apply write_Some. subst ob'.
  destruct (decide (target a = target b)) as [E|N].
  - rewrite <- E. apply lookup_insert_eq.
  - by rewrite lookup_insert_ne.
Qed.

End RunStore.

(** ** The two element templates *)

Section ElementFacts.

Context {Val : Type} (T : cpp_type Val) (Tag : nat).

Import internal.

Lemma element_eta ebco (e : compressed_pair_element T Tag ebco) :
  e = match ebco return compressed_pair_element T Tag ebco with
      | false => boxed (get_const T Tag e)
      | true => merged (get_const T Tag e)
      end.
Proof. by destruct e. Qed.

Lemma element_ext ebco (e e' : compressed_pair_element T Tag ebco) :
  get_const T Tag e = get_const T Tag e' -> e = e'.
Proof.
  intros H. rewrite (element_eta _ e), (element_eta _ e'), H. reflexivity.
Qed.

Lemma view_get ebco (e : compressed_pair_element T Tag ebco) :
  view (get T Tag) e = get_const T Tag e.
Proof. reflexivity. Qed.

Lemma get_const_update ebco (e : compressed_pair_element T Tag ebco) v :
  get_const T Tag (update (get T Tag) e v) = v.
Proof. by destruct e. Qed.

Lemma update_get_const ebco (e : compressed_pair_element T Tag ebco) :
  update (get T Tag) e (get_const T Tag e) = e.
Proof. by destruct e. Qed.

Lemma get_const_default ebco :
  get_const T Tag <$> element_default T Tag ebco = value_init T.
Proof.
  unfold element_default, is_default_constructible_v.
  destruct ebco, (value_init T); reflexivity.
Qed.

Lemma get_const_forward {Args} `{!Constructible T Args} ebco (args : Args) :
  get_const T Tag (element_forward T Tag ebco args) = direct_init args.
Proof. by destruct ebco. Qed.

Lemma get_const_piecewise ebco args Index :
  get_const T Tag <$> element_piecewise T Tag ebco args Index =
  expand_get args Index ≫= list_init T.
Proof.
  unfold element_piecewise.
  destruct ebco, (expand_get args Index) as [pack|]; simpl; try reflexivity;
    by destruct (list_init T pack).
Qed.

Lemma get_const_copy ebco (e : compressed_pair_element T Tag ebco) :
  get_const T Tag (element_copy T Tag e) = copy_construct T (get_const T Tag e).
Proof. by destruct e. Qed.

Lemma get_const_assign ebco (e e' : compressed_pair_element T Tag ebco) :
  get_const T Tag (element_assign T Tag e e') =
  copy_assign T (get_const T Tag e) (get_const T Tag e').
Proof. by destruct e. Qed.

(** Expanding [std::get<Index>(args)...] over [0 .. n-1] rebuilds the
    arguments, each at its place. *)
Lemma expand_get_shift (pre args : list Val) :
  expand_get (pre ++ args) (seq (length pre) (length args)) = Some args.
Proof.
  revert pre. induction args as [|v args IH]; intros pre; [reflexivity|].
  unfold expand_get, std_get in *. simpl.
  rewrite list_lookup_middle by reflexivity. simpl.
  specialize (IH (pre ++ [v])).
  rewrite <- app_assoc, length_app in IH. simpl in IH.
  rewrite Nat.add_1_r in IH. by rewrite IH.
Qed.

Lemma expand_get_all (args : list Val) :
  expand_get args (seq 0 (length args)) = Some args.
Proof. exact (expand_get_shift [] args). Qed.

End ElementFacts.

(** ** The accessors of the pair *)

Section PairFacts.

Context {Val : Type} (First Second : cpp_type Val).

Implicit Types (s : gmap loc (compressed_pair First Second)) (l : loc).
Implicit Types (o : compressed_pair First Second).

Abbreviation first_path := (first_path First Second).
Abbreviation second_path := (second_path First Second).

Lemma first_Some s l o :
  s !! l = Some o -> first First Second l s = Ok (Ref l first_path) s.
Proof. intros H. unfold first. by rewrite run_bind, (load_Some _ _ _ H). Qed.

Lemma second_Some s l o :
  s !! l = Some o -> second First Second l s = Ok (Ref l second_path) s.
Proof. intros H. unfold second. by rewrite run_bind, (load_Some _ _ _ H). Qed.

Lemma first_value_Some s l o :
  s !! l = Some o -> first_value First Second l s = Ok (first_of First Second o) s.
Proof.
  intros H. unfold first_value.
  rewrite run_bind, (first_Some _ _ _ H). by rewrite (read_Some _ _ o).
Qed.

Lemma second_value_Some s l o :
  s !! l = Some o -> second_value First Second l s = Ok (second_of First Second o) s.
Proof.
  intros H. unfold second_value.
  rewrite run_bind, (second_Some _ _ _ H). by rewrite (read_Some _ _ o).
Qed.

Lemma first_const_value_Some s l o :
  s !! l = Some o ->
  first_const_value First Second l s = Ok (first_of First Second o) s.
Proof.
  intros H. unfold first_const_value, first_const.
  rewrite !run_bind, (load_Some _ _ _ H), run_ret. by rewrite (read_const_Some _ _ o).
Qed.

Lemma second_const_value_Some s l o :
  s !! l = Some o ->
  second_const_value First Second l s = Ok (second_of First Second o) s.
Proof.
  intros H. unfold second_const_value, second_const.
  rewrite !run_bind, (load_Some _ _ _ H), run_ret. by rewrite (read_const_Some _ _ o).
Qed.

(** Writing along one path and reading along either. *)
Lemma first_of_update_first o v :
  first_of First Second (update first_path o v) = v.
Proof. unfold first_of. simpl. apply get_const_update. Qed.

Lemma second_of_update_first o v :
  second_of First Second (update first_path o v) = second_of First Second o.
Proof. reflexivity. Qed.

Lemma first_of_update_second o v :
  first_of First Second (update second_path o v) = first_of First Second o.
Proof. reflexivity. Qed.

Lemma second_of_update_second o v :
  second_of First Second (update second_path o v) = v.
Proof. unfold second_of. simpl. apply get_const_update. Qed.

(** An object is determined by the two values it holds. *)
Lemma pair_ext o o' :
  first_of First Second o = first_of First Second o' ->
  second_of First Second o = second_of First Second o' ->
  o = o'.
Proof.
  destruct o as [f1 s1], o' as [f2 s2]. unfold first_of, second_of. simpl.
  intros Hf Hs. f_equal; by apply element_ext.
Qed.

Lemma holds_Some s l o :
  s !! l = Some o -> holds First Second s l (first_of First Second o) (second_of First Second o).
Proof.
  intros H. repeat split.
  - by apply first_value_Some.
  - by apply second_value_Some.
  - by apply first_const_value_Some.
  - by apply second_const_value_Some.
Qed.

End PairFacts.

(** ** Construction *)

Section Construction.

Context {Val : Type} (First Second : cpp_type Val).

Implicit Types (s : gmap loc (compressed_pair First Second)) (l : loc).

Lemma alloc_holds s (o : compressed_pair First Second) :
  exists l s',
    alloc o s = Ok l s' /\
    s !! l = None /\
    s' = <[l := o]> s /\
    holds First Second s' l (first_of First Second o) (second_of First Second o).
Proof.
  exists (fresh (dom s)), (<[fresh (dom s) := o]> s).
  split; [reflexivity|]. split; [apply alloc_fresh|]. split; [reflexivity|].
  apply holds_Some, lookup_insert_eq.
Qed.

(** C1: a pair constructed from two values [a : First] and [b : Second],
    each passed as an lvalue or as an rvalue, has [first() == a] and
    [second() == b], whatever the layout of the two bases. *)
Theorem values_first_second (a : forwarded First) (b : forwarded Second) s :
  CopyConstructible First -> MoveConstructible First ->
  CopyConstructible Second -> MoveConstructible Second ->
  exists l s',
    compressed_pair_values First Second a b s = Ok l s' /\
    holds First Second s' l (referent a) (referent b).
Proof.
  intros Hcf Hmf Hcs Hms. unfold compressed_pair_values.
  destruct (alloc_holds s
    (CompressedPair First Second
       (internal.element_forward First 0 _ a)
       (internal.element_forward Second 1 _ b))) as (l & s' & Hrun & _ & _ & Hh).
  exists l, s'. split; [exact Hrun|].
  unfold first_of, second_of in Hh. simpl in Hh.
  rewrite !get_const_forward in Hh.
  replace (referent a) with (direct_init (T := First) a);
    [replace (referent b) with (direct_init (T := Second) b); [exact Hh|]|].
  - destruct b; [apply Hcs | apply Hms].
  - destruct a; [apply Hcf | apply Hmf].
Qed.

Lemma element_piecewise_Some (T : cpp_type Val) (Tag : nat) ebco args (a : T) :
  list_init T args = Some a ->
  exists e,
    internal.element_piecewise T Tag ebco args (index_sequence_for args) = Some e /\
    internal.get_const T Tag e = a.
Proof.
  intros Ha.
  pose proof (get_const_piecewise T Tag ebco args (index_sequence_for args)) as H.
  unfold index_sequence_for in *. rewrite expand_get_all in H. simpl in H.
  rewrite Ha in H.
  destruct (internal.element_piecewise T Tag ebco args (seq 0 (length args))) as [e|];
    [|discriminate].
  exists e. split; [reflexivity|]. by injection H.
Qed.

(** C4: piecewise construction expands each tuple element by element, in
    argument order, into the initialiser of the matching base; the pair
    built has [first()] equal to [First{args...}] and [second()] equal to
    [Second{other...}]. *)
Theorem piecewise_first_second (args other : list Val) (a : First) (b : Second) s :
  list_init First args = Some a ->
  list_init Second other = Some b ->
  internal.expand_get args (index_sequence_for args) = Some args /\
  internal.expand_get other (index_sequence_for other) = Some other /\
  exists l s',
    compressed_pair_piecewise First Second args other s = Ok l s' /\
    holds First Second s' l a b.
Proof.
  intros Ha Hb.
  split; [apply expand_get_all|]. split; [apply expand_get_all|].
  destruct (element_piecewise_Some First 0 (is_ebco_eligible_v First) args a Ha)
    as (f & Hf & Hfa).
  destruct (element_piecewise_Some Second 1 (is_ebco_eligible_v Second) other b Hb)
    as (e & He & Heb).
  unfold compressed_pair_piecewise.
  rewrite Hf, He. simpl.
  destruct (alloc_holds s (CompressedPair First Second f e)) as (l & s' & Hrun & _ & _ & Hh).
  exists l, s'. split; [exact Hrun|].
  unfold first_of, second_of in Hh. simpl in Hh. by rewrite Hfa, Heb in Hh.
Qed.

(** C6: the default constructor is there exactly when both [First] and
    [Second] are default constructible (the program is rejected otherwise),
    and the pair it builds holds [First{}] and [Second{}]. *)
Theorem default_first_second s :
  if is_default_constructible_v First && is_default_constructible_v Second
  then exists a b l s',
         value_init First = Some a /\
         value_init Second = Some b /\
         compressed_pair_default First Second s = Ok l s' /\
         holds First Second s' l a b
  else compressed_pair_default First Second s = Rejected.
Proof.
  unfold compressed_pair_default.
  pose proof (get_const_default First 0 (is_ebco_eligible_v First)) as Hf.
  pose proof (get_const_default Second 1 (is_ebco_eligible_v Second)) as Hs.
  unfold is_default_constructible_v in *.
  destruct (value_init First) as [a|], (value_init Second) as [b|];
    simpl; try reflexivity.
  destruct (internal.element_default First 0 (is_ebco_eligible_v First)) as [f|];
    [|discriminate].
  destruct (internal.element_default Second 1 (is_ebco_eligible_v Second)) as [e|];
    [|discriminate].
  simpl in *.
  destruct (alloc_holds s (CompressedPair First Second f e)) as (l & s' & Hrun & _ & _ & Hh).
  exists a, b, l, s'. repeat split; try reflexivity; try exact Hrun.
  all: unfold first_of, second_of in Hh; simpl in Hh.
  all: injection Hf as Hf; injection Hs as Hs; rewrite Hf, Hs in Hh; apply Hh.
Qed.

End Construction.

Lemma values_first_second_witness :
  (CopyConstructible Types.empty /\ MoveConstructible Types.empty /\
   CopyConstructible Types.int /\ MoveConstructible Types.int) /\
  exists p st,
    compressed_pair_values Types.empty Types.int (lvalue tt) (rvalue 42%Z) ∅ = Ok p st /\
    holds Types.empty Types.int st p tt 42%Z.
Proof.
  split.
  - repeat split; intros ?; reflexivity.
  - apply (values_first_second Types.empty Types.int (lvalue tt) (rvalue 42%Z) ∅);
      intros ?; reflexivity.
Defined.

Lemma piecewise_first_second_witness :
  (list_init Types.point [Types.VInt 1; Types.VInt 2; Types.VInt 3] = Some (1, 2, 3)%Z /\
   list_init Types.name [Types.VStr "x"; Types.VStr "y"] = Some ("x", "y")) /\
  exists p st,
    compressed_pair_piecewise Types.point Types.name
      [Types.VInt 1; Types.VInt 2; Types.VInt 3] [Types.VStr "x"; Types.VStr "y"] ∅
    = Ok p st /\
    holds Types.point Types.name st p (1, 2, 3)%Z ("x", "y").
Proof.
  split; [split; reflexivity|].
  apply (piecewise_first_second Types.point Types.name
           [Types.VInt 1; Types.VInt 2; Types.VInt 3] [Types.VStr "x"; Types.VStr "y"]
           (1, 2, 3)%Z ("x", "y") ∅);
    reflexivity.
Defined.

(** ** Access *)

Section Access.

Context {Val : Type} (First Second : cpp_type Val).

Implicit Types (s : gmap loc (compressed_pair First Second)) (l : loc).
Implicit Types (o : compressed_pair First Second).


(** C10: an assignment through [first()] leaves what [second()] observes
    unchanged, and an assignment through [second()] leaves what [first()]
    observes unchanged; [First] and [Second] are arbitrary, and may be one
    and the same type. *)
Theorem slots_independent s l o (v : First) (w : Second) :
  s !! l = Some o ->
  (exists s', assign_first First Second l v s = Ok tt s' /\
              second_value First Second l s' = Ok (second_of First Second o) s' /\
              second_const_value First Second l s' = Ok (second_of First Second o) s') /\
  (exists s', assign_second First Second l w s = Ok tt s' /\
              first_value First Second l s' = Ok (first_of First Second o) s' /\
              first_const_value First Second l s' = Ok (first_of First Second o) s').
Proof.
  intros H. split.
  - eexists. split.
    + unfold assign_first. rewrite run_bind, (first_Some _ _ _ _ _ H).
      by apply assign_Some.
    + simpl. split.
      * by rewrite (second_value_Some _ _ _ _ _ (lookup_insert_eq _ _ _)).
      * by rewrite (second_const_value_Some _ _ _ _ _ (lookup_insert_eq _ _ _)).
  - eexists. split.
    + unfold assign_second. rewrite run_bind, (second_Some _ _ _ _ _ H).
      by apply assign_Some.
    + simpl. split.
      * by rewrite (first_value_Some _ _ _ _ _ (lookup_insert_eq _ _ _)).
      * by rewrite (first_const_value_Some _ _ _ _ _ (lookup_insert_eq _ _ _)).
Qed.

End Access.


Lemma slots_independent_witness :
  ({[1%positive := Samples.ints]} : gmap loc _) !! 1%positive = Some Samples.ints /\
  let s : gmap loc _ := {[1%positive := Samples.ints]} in
  (exists s', assign_first Types.int Types.int 1 7%Z s = Ok tt s' /\
              second_value Types.int Types.int 1 s' = Ok 2%Z s' /\
              second_const_value Types.int Types.int 1 s' = Ok 2%Z s') /\
  (exists s', assign_second Types.int Types.int 1 9%Z s = Ok tt s' /\
              first_value Types.int Types.int 1 s' = Ok 1%Z s' /\
              first_const_value Types.int Types.int 1 s' = Ok 1%Z s').
Proof.
  split; [reflexivity|].
  apply (slots_independent Types.int Types.int {[1%positive := Samples.ints]}
           1%positive Samples.ints 7%Z 9%Z).
  reflexivity.
Defined.

(** ** Swap *)

Section Swap.

Context {Val : Type} (First Second : cpp_type Val).

Implicit Types (s : gmap loc (compressed_pair First Second)) (p q l : loc).
Implicit Types (P Q : compressed_pair First Second).

Lemma swap_first_step s p q P Q :
  Swappable First ->
  s !! p = Some P -> s !! q = Some Q ->
  exists s',
    using_std_swap (Ref p (first_path First Second)) (Ref q (first_path First Second)) s
    = Ok tt s' /\
    exchanged First Second s p q s'
      (first_of First Second Q) (first_of First Second P)
      (second_of First Second P) (second_of First Second Q).
Proof.
  intros Hsw Hp Hq. eexists. split.
  - exact (using_std_swap_Some (Ref p _) (Ref q _) s P Q Hp Hq).
  - unfold exchanged. cbv zeta. cbn [target path]. rewrite !Hsw. cbn [fst snd]. split.
    + destruct (decide (p = q)) as [->|N].
      * rewrite Hp in Hq. injection Hq as ->.
        eexists _, _. rewrite lookup_insert_eq.
        repeat split; try reflexivity; apply first_of_update_first.
      * eexists _, _. rewrite lookup_insert_ne, !lookup_insert_eq by done.
        repeat split; try reflexivity; apply first_of_update_first.
    + intros l Hlp Hlq. by rewrite !lookup_insert_ne.
Qed.

Lemma swap_second_step s p q P Q :
  Swappable Second ->
  s !! p = Some P -> s !! q = Some Q ->
  exists s',
    using_std_swap (Ref p (second_path First Second)) (Ref q (second_path First Second)) s
    = Ok tt s' /\
    exchanged First Second s p q s'
      (first_of First Second P) (first_of First Second Q)
      (second_of First Second Q) (second_of First Second P).
Proof.
  intros Hsw Hp Hq. eexists. split.
  - exact (using_std_swap_Some (Ref p _) (Ref q _) s P Q Hp Hq).
  - unfold exchanged. cbv zeta. cbn [target path]. rewrite !Hsw. cbn [fst snd]. split.
    + destruct (decide (p = q)) as [->|N].
      * rewrite Hp in Hq. injection Hq as ->.
        eexists _, _. rewrite lookup_insert_eq.
        repeat split; try reflexivity; apply second_of_update_second.
      * eexists _, _. rewrite lookup_insert_ne, !lookup_insert_eq by done.
        repeat split; try reflexivity; apply second_of_update_second.
    + intros l Hlp Hlq. by rewrite !lookup_insert_ne.
Qed.

(** C2: after [p.swap(q)], [p] holds the first and second values that [q]
    held and [q] those that [p] held, and no other object has changed; the
    layout of either base is arbitrary, and [p] and [q] may be one object. *)
Theorem swap_exchanges s p q P Q :
  Swappable First -> Swappable Second ->
  s !! p = Some P -> s !! q = Some Q ->
  exists s',
    member_swap First Second p q s = Ok tt s' /\
    holds First Second s' p (first_of First Second Q) (second_of First Second Q) /\
    holds First Second s' q (first_of First Second P) (second_of First Second P) /\
    forall l, l <> p -> l <> q -> s' !! l = s !! l.
Proof.
  intros HF HS Hp Hq.
  destruct (swap_first_step s p q P Q HF Hp Hq)
    as (s1 & Hrun1 & (P1 & Q1 & Hp1 & Hq1 & HfP1 & HsP1 & HfQ1 & HsQ1) & Hfr1).
  destruct (swap_second_step s1 p q P1 Q1 HS Hp1 Hq1)
    as (s2 & Hrun2 & (P2 & Q2 & Hp2 & Hq2 & HfP2 & HsP2 & HfQ2 & HsQ2) & Hfr2).
  exists s2. split; [|split; [|split]].
  - unfold member_swap.
    rewrite run_bind, (first_Some _ _ _ _ _ Hp).
    rewrite run_bind, (first_Some _ _ _ _ _ Hq).
    rewrite run_bind, Hrun1.
    rewrite run_bind, (second_Some _ _ _ _ _ Hp1).
    rewrite run_bind, (second_Some _ _ _ _ _ Hq1).
    exact Hrun2.
  - rewrite <- HfP1, <- HsQ1, <- HfP2, <- HsP2. by apply holds_Some.
  - rewrite <- HfQ1, <- HsP1, <- HfQ2, <- HsQ2. by apply holds_Some.
  - intros l Hlp Hlq. by rewrite Hfr2, Hfr1.
Qed.

(** C3: the free function [swap(lhs, rhs)] and the member [lhs.swap(rhs)]
    are the same transformation of the store, with the same outcome. *)
Theorem swap_free_is_member (lhs rhs : loc) s :
  swap First Second lhs rhs s = member_swap First Second lhs rhs s.
Proof. reflexivity. Qed.

End Swap.

Lemma swap_exchanges_witness :
  (Swappable Types.empty /\ Swappable Types.int /\
   Samples.mixed !! 1%positive = Some Samples.three /\
   Samples.mixed !! 2%positive = Some Samples.four) /\
  let s := Samples.mixed in
  exists s',
    member_swap Types.empty Types.int 1 2 s = Ok tt s' /\
    holds Types.empty Types.int s' 1 tt 4%Z /\
    holds Types.empty Types.int s' 2 tt 3%Z /\
    forall l : loc, l <> 1%positive -> l <> 2%positive -> s' !! l = s !! l.
Proof.
  split.
  - repeat split; intros ?; reflexivity.
  - apply (swap_exchanges Types.empty Types.int Samples.mixed
             1%positive 2%positive Samples.three Samples.four).
    + intros ? ?; reflexivity.
    + intros ? ?; reflexivity.
    + reflexivity.
    + reflexivity.
Defined.

(** ** Copies *)

Section Copy.

Context {Val : Type} (First Second : cpp_type Val).

Implicit Types (s : gmap loc (compressed_pair First Second)) (p q l : loc).
Implicit Types (P Q : compressed_pair First Second).

Lemma copy_construct_step s q Q :
  CopyConstructible First -> CopyConstructible Second ->
  s !! q = Some Q ->
  exists l s',
    compressed_pair_copy First Second q s = Ok l s' /\
    s !! l = None /\
    s' = <[l := Q]> s.
Proof.
  intros HF HS Hq. unfold compressed_pair_copy.
  rewrite run_bind, (load_Some _ _ _ Hq).
  destruct (alloc_holds First Second s
    (CompressedPair First Second
       (internal.element_copy First 0 (first_base First Second Q))
       (internal.element_copy Second 1 (second_base First Second Q))))
    as (l & s' & Hrun & Hl & Hs' & _).
  exists l, s'. split; [exact Hrun|]. split; [exact Hl|].
  rewrite Hs'. f_equal. apply pair_ext; unfold first_of, second_of; simpl.
  - by rewrite get_const_copy, HF.
  - by rewrite get_const_copy, HS.
Qed.

Lemma copy_assignment_step s p q P Q :
  CopyAssignable First -> CopyAssignable Second ->
  s !! p = Some P -> s !! q = Some Q ->
  copy_assignment First Second p q s = Ok p (<[p := Q]> s).
Proof.
  intros HF HS Hp Hq. unfold copy_assignment.
  rewrite run_bind, (load_Some _ _ _ Hp).
  rewrite run_bind, (load_Some _ _ _ Hq).
  rewrite run_bind, (store_Some _ _ _ _ Hp).
  set (P1 := CompressedPair First Second _ _).
  assert (exists Q1, <[p := P1]> s !! q = Some Q1 /\
                     second_of First Second Q1 = second_of First Second Q)
    as (Q1 & Hq1 & HQ1).
  { destruct (decide (p = q)) as [->|N].
    - exists P1. rewrite lookup_insert_eq. split; [reflexivity|].
      rewrite Hp in Hq. by injection Hq as ->.
    - exists Q. by rewrite lookup_insert_ne. }
  rewrite run_bind, (load_Some _ _ P1 (lookup_insert_eq _ _ _)).
  rewrite run_bind, (load_Some _ _ _ Hq1).
  rewrite run_bind, (store_Some _ _ P1 _ (lookup_insert_eq _ _ _)).
  rewrite run_ret, insert_insert_eq. do 2 f_equal.
  apply pair_ext; unfold first_of, second_of in *; simpl.
  - by rewrite get_const_assign, HF.
  - by rewrite get_const_assign, HS.
Qed.

(** C5: a copy, made by the copy constructor or by copy assignment, holds
    values equal to those of the original, and the original is the object
    it was afterwards (as is every other object).  The copy constructor
    makes the copy at a location that held no object, so that the copy is
    another object than the original. *)
Theorem copy_preserves s p q P Q :
  CopyConstructible First -> CopyConstructible Second ->
  CopyAssignable First -> CopyAssignable Second ->
  s !! p = Some P -> s !! q = Some Q ->
  (exists l s',
     compressed_pair_copy First Second q s = Ok l s' /\
     s !! l = None /\
     l <> q /\
     holds First Second s' l (first_of First Second Q) (second_of First Second Q) /\
     s' !! q = Some Q /\
     forall l', l' <> l -> s' !! l' = s !! l') /\
  (exists s',
     copy_assignment First Second p q s = Ok p s' /\
     holds First Second s' p (first_of First Second Q) (second_of First Second Q) /\
     s' !! q = Some Q /\
     forall l', l' <> p -> s' !! l' = s !! l').
Proof.
  intros HcF HcS HaF HaS Hp Hq. split.
  - destruct (copy_construct_step s q Q HcF HcS Hq) as (l & s' & Hrun & Hl & ->).
    assert (l <> q) as Nlq by (intros ->; by rewrite Hl in Hq).
    exists l, (<[l := Q]> s). split; [exact Hrun|].
    split; [exact Hl|]. split; [exact Nlq|].
    split; [apply holds_Some, lookup_insert_eq|].
    split.
    + by rewrite lookup_insert_ne.
    + intros l' N. by rewrite lookup_insert_ne.
  - exists (<[p := Q]> s). split; [by apply copy_assignment_step with P|].
    split; [apply holds_Some, lookup_insert_eq|].
    split.
    + destruct (decide (p = q)) as [->|N]; [apply lookup_insert_eq|].
      by rewrite lookup_insert_ne.
    + intros l' N. by rewrite lookup_insert_ne.
Qed.

End Copy.

Lemma copy_preserves_witness :
  (CopyConstructible Types.point /\ CopyConstructible Types.name /\
   CopyAssignable Types.point /\ CopyAssignable Types.name /\
   Samples.all_boxed !! 1%positive = Some Samples.origin /\
   Samples.all_boxed !! 2%positive = Some Samples.unit_x) /\
  let s := Samples.all_boxed in
  (exists l s',
     compressed_pair_copy Types.point Types.name 2 s = Ok l s' /\
     s !! l = None /\
     l <> 2%positive /\
     holds Types.point Types.name s' l (1, 0, 0)%Z ("x", "axis") /\
     s' !! 2%positive = Some Samples.unit_x /\
     forall l' : loc, l' <> l -> s' !! l' = s !! l') /\
  (exists s',
     copy_assignment Types.point Types.name 1 2 s = Ok 1%positive s' /\
     holds Types.point Types.name s' 1 (1, 0, 0)%Z ("x", "axis") /\
     s' !! 2%positive = Some Samples.unit_x /\
     forall l' : loc, l' <> 1%positive -> s' !! l' = s !! l').
Proof.
  split.
  - repeat split; intros ?; reflexivity.
  - apply (copy_preserves Types.point Types.name Samples.all_boxed
             1%positive 2%positive Samples.origin Samples.unit_x).
    + intros ?; reflexivity.
    + intros ?; reflexivity.
    + intros ? ?; reflexivity.
    + intros ? ?; reflexivity.
    + reflexivity.
    + reflexivity.
Defined.

(** ** The two layouts of an element *)

Section Layout.

Context {Val : Type} (T : cpp_type Val) (Tag : nat).

Import internal.

(** C7: the primary template (a member [value]) and the specialisation (a
    base [Type]) cannot be told apart through constructors and [get()]: the
    same construction inputs give elements with the same value, and on two
    elements with the same value, reading through [get()], copying,
    writing through [get()] and assigning give the same value again. *)
Theorem layouts_agree :
  get_const T Tag <$> element_default T Tag false
  = get_const T Tag <$> element_default T Tag true /\
  (forall Args (C : Constructible T Args) (args : Args),
     get_const T Tag (element_forward T Tag false args)
     = get_const T Tag (element_forward T Tag true args)) /\
  (forall args Index,
     get_const T Tag <$> element_piecewise T Tag false args Index
     = get_const T Tag <$> element_piecewise T Tag true args Index) /\
  (forall (e : compressed_pair_element T Tag false)
          (e' : compressed_pair_element T Tag true),
     get_const T Tag e = get_const T Tag e' ->
     view (get T Tag) e = view (get T Tag) e' /\
     get_const T Tag (element_copy T Tag e) = get_const T Tag (element_copy T Tag e') /\
     (forall v, get_const T Tag (update (get T Tag) e v)
                = get_const T Tag (update (get T Tag) e' v)) /\
     (forall (o : compressed_pair_element T Tag false)
             (o' : compressed_pair_element T Tag true),
        get_const T Tag o = get_const T Tag o' ->
        get_const T Tag (element_assign T Tag e o)
        = get_const T Tag (element_assign T Tag e' o'))).
Proof.
  split; [by rewrite !get_const_default|].
  split; [intros; by rewrite !get_const_forward|].
  split; [intros; by rewrite !get_const_piecewise|].
  intros e e' He. split; [exact He|].
  split; [by rewrite !get_const_copy, He|].
  split; [intros v; by rewrite !get_const_update|].
  intros o o' Ho. by rewrite !get_const_assign, He, Ho.
Qed.

End Layout.

(** ** Runs on concrete stores *)

Section Runs.

Import Types Samples.

Example expand_three :
  internal.expand_get [VInt 1; VInt 2; VInt 3] (index_sequence_for [VInt 1; VInt 2; VInt 3])
  = Some [VInt 1; VInt 2; VInt 3].
Proof. reflexivity. Qed.

Example default_empty_int :
  compressed_pair_default empty int ∅
  = Ok 1%positive
       {[1%positive := CompressedPair empty int (internal.merged (T := empty) tt)
                                                (internal.boxed (T := int) 0%Z)]}.
Proof. vm_compute. reflexivity. Qed.

Example default_point_rejected : compressed_pair_default point int ∅ = Rejected.
Proof. reflexivity. Qed.

Example piecewise_point_name :
  (l ← compressed_pair_piecewise point name
         [VInt 1; VInt 2; VInt 3] [VStr "x"; VStr "y"];
   a ← first_value point name l;
   b ← second_value point name l;
   mret (a, b)) all_boxed
  = Ok ((1, 2, 3)%Z, ("x", "y"))
       (<[3%positive := CompressedPair point name
                          (internal.boxed (T := point) (1, 2, 3)%Z)
                          (internal.boxed (T := name) ("x", "y"))]> all_boxed).
Proof. vm_compute. reflexivity. Qed.

Example piecewise_arity_rejected :
  compressed_pair_piecewise point name [VInt 1; VInt 2] [VStr "x"; VStr "y"] ∅ = Rejected.
Proof. reflexivity. Qed.

Example swap_mixed :
  member_swap empty int 1 2 mixed = Ok tt {[1%positive := four; 2%positive := three]}.
Proof. vm_compute. reflexivity. Qed.

Example swap_all_boxed :
  swap point name 1 2 all_boxed = Ok tt {[1%positive := unit_x; 2%positive := origin]}.
Proof. vm_compute. reflexivity. Qed.

Example swap_self : member_swap point name 2 2 all_boxed = Ok tt all_boxed.
Proof. vm_compute. reflexivity. Qed.

Example swap_dangling : member_swap empty int 1 3 mixed = Undefined.
Proof. reflexivity. Qed.

Example copy_then_assign :
  (l ← compressed_pair_copy point name 2;
   assign_first point name l (5, 5, 5)%Z;;
   a ← first_value point name l;
   b ← first_const_value point name 2;
   mret (a, b)) all_boxed
  = Ok ((5, 5, 5)%Z, (1, 0, 0)%Z)
       (<[3%positive := CompressedPair point name
                          (internal.boxed (T := point) (5, 5, 5)%Z)
                          (internal.boxed (T := name) ("x", "axis"))]> all_boxed).
Proof. vm_compute. reflexivity. Qed.

Example assign_self :
  copy_assignment point name 1 1 all_boxed = Ok 1%positive all_boxed.
Proof. vm_compute. reflexivity. Qed.

End Runs.

(** * Further properties *)

(** ** More on swap *)

Section SwapMore.

Context {Val : Type} (First Second : cpp_type Val).

Implicit Types (s : gmap loc (compressed_pair First Second)) (p q l : loc).
Implicit Types (P Q : compressed_pair First Second).

(** The exchange of one slot of two different objects. *)
Lemma using_std_swap_ne {T : cpp_type Val} (slot : lens (compressed_pair First Second) T)
    s p q P Q :
  p <> q -> s !! p = Some P -> s !! q = Some Q ->
  using_std_swap (Ref p slot) (Ref q slot) s =
  Ok tt (<[q := update slot Q (adl_swap T (view slot P) (view slot Q)).2]>
           (<[p := update slot P (adl_swap T (view slot P) (view slot Q)).1]> s)).
Proof.
  intros N Hp Hq.
  rewrite (using_std_swap_Some (Ref p slot) (Ref q slot) s P Q Hp Hq).
  cbv zeta. cbn [target path]. by rewrite decide_False.
Qed.


(** X1: on two different objects, [swap] hands the two first values to the
    exchange of [First] and the two second values to that of [Second], once
    each, and stores what they return, whatever these exchanges do. *)
Theorem swap_uses_element_swap s p q P Q :
  p <> q -> s !! p = Some P -> s !! q = Some Q ->
  let f := adl_swap First (first_of First Second P) (first_of First Second Q) in
  let e := adl_swap Second (second_of First Second P) (second_of First Second Q) in
  exists s',
    member_swap First Second p q s = Ok tt s' /\
    holds First Second s' p f.1 e.1 /\
    holds First Second s' q f.2 e.2 /\
    forall l, l <> p -> l <> q -> s' !! l = s !! l.
Proof.
  intros N Hp Hq f e. unfold member_swap.
  rewrite run_bind, (first_Some _ _ _ _ _ Hp).
  rewrite run_bind, (first_Some _ _ _ _ _ Hq).
  rewrite run_bind, (using_std_swap_ne _ s p q P Q N Hp Hq).
  set (P1 := update (first_path First Second) P _).
  set (Q1 := update (first_path First Second) Q _).
  assert (<[q := Q1]> (<[p := P1]> s) !! p = Some P1) as Hp1.
  { by rewrite lookup_insert_ne, lookup_insert_eq. }
  assert (<[q := Q1]> (<[p := P1]> s) !! q = Some Q1) as Hq1.
  { apply lookup_insert_eq. }
  rewrite run_bind, (second_Some _ _ _ _ _ Hp1).
  rewrite run_bind, (second_Some _ _ _ _ _ Hq1).
  eexists. split; [exact (using_std_swap_ne _ _ p q P1 Q1 N Hp1 Hq1)|].
  split; [|split].
  - replace f.1 with (first_of First Second
                        (update (second_path First Second) P1 e.1)).
    + replace e.1 with (second_of First Second
                          (update (second_path First Second) P1 e.1)) at 2.
      * apply holds_Some. by rewrite lookup_insert_ne, lookup_insert_eq.
      * apply second_of_update_second.
    + rewrite first_of_update_second. apply first_of_update_first.
  - replace f.2 with (first_of First Second
                        (update (second_path First Second) Q1 e.2)).
    + replace e.2 with (second_of First Second
                          (update (second_path First Second) Q1 e.2)) at 2.
      * apply holds_Some. apply lookup_insert_eq.
      * apply second_of_update_second.
    + rewrite first_of_update_second. apply first_of_update_first.
  - intros l Hlp Hlq. by rewrite !lookup_insert_ne.
Qed.

(** For types that exchange values, the store after [p.swap(q)] is the old
    one with the objects at [p] and [q] exchanged. *)
Lemma member_swap_store s p q P Q :
  Swappable First -> Swappable Second ->
  s !! p = Some P -> s !! q = Some Q ->
  member_swap First Second p q s = Ok tt (<[p := Q]> (<[q := P]> s)).
Proof.
  intros HF HS Hp Hq.
  destruct (swap_first_step First Second s p q P Q HF Hp Hq)
    as (s1 & Hrun1 & (P1 & Q1 & Hp1 & Hq1 & HfP1 & HsP1 & HfQ1 & HsQ1) & Hfr1).
  destruct (swap_second_step First Second s1 p q P1 Q1 HS Hp1 Hq1)
    as (s2 & Hrun2 & (P2 & Q2 & Hp2 & Hq2 & HfP2 & HsP2 & HfQ2 & HsQ2) & Hfr2).
  unfold member_swap.
  rewrite run_bind, (first_Some _ _ _ _ _ Hp).
  rewrite run_bind, (first_Some _ _ _ _ _ Hq).
  rewrite run_bind, Hrun1.
  rewrite run_bind, (second_Some _ _ _ _ _ Hp1).
  rewrite run_bind, (second_Some _ _ _ _ _ Hq1).
  rewrite Hrun2. f_equal.
  assert (P2 = Q) as -> by (apply pair_ext; congruence).
  assert (Q2 = P) as -> by (apply pair_ext; congruence).
  apply map_eq. intros l.
  destruct (decide (l = p)) as [->|Np].
  { by rewrite lookup_insert_eq. }
  rewrite (lookup_insert_ne _ p l) by done.
  destruct (decide (l = q)) as [->|Nq].
  { by rewrite lookup_insert_eq. }
  rewrite lookup_insert_ne by done.
  by rewrite Hfr2, Hfr1.
Qed.

(** X2: swapping the same two pairs twice gives back the store one started
    from. *)
Theorem swap_twice_restores s p q P Q :
  Swappable First -> Swappable Second ->
  s !! p = Some P -> s !! q = Some Q ->
  (member_swap First Second p q;; member_swap First Second p q) s = Ok tt s.
Proof.
  intros HF HS Hp Hq.
  rewrite run_bind, (member_swap_store s p q P Q HF HS Hp Hq).
  assert (<[p := Q]> (<[q := P]> s) !! p = Some Q) as Hp' by apply lookup_insert_eq.
  assert (<[p := Q]> (<[q := P]> s) !! q = Some P) as Hq'.
  { destruct (decide (p = q)) as [->|N].
    - rewrite lookup_insert_eq. rewrite Hp in Hq. by injection Hq as ->.
    - by rewrite lookup_insert_ne, lookup_insert_eq. }
  rewrite (member_swap_store _ p q Q P HF HS Hp' Hq'). f_equal.
  apply map_eq. intros l.
  destruct (decide (l = p)) as [->|Np].
  { by rewrite lookup_insert_eq. }
  rewrite (lookup_insert_ne _ p l) by done.
  destruct (decide (l = q)) as [->|Nq].
  { by rewrite lookup_insert_eq. }
  by rewrite !lookup_insert_ne.
Qed.

(** X3: [p.swap(q)] and [q.swap(p)] do the same to the store, and swapping a
    pair with itself leaves the store as it is. *)
Theorem swap_symmetric s p q P Q :
  Swappable First -> Swappable Second ->
  s !! p = Some P -> s !! q = Some Q ->
  member_swap First Second p q s = member_swap First Second q p s /\
  member_swap First Second p p s = Ok tt s.
Proof.
  intros HF HS Hp Hq. split.
  - rewrite (member_swap_store s p q P Q HF HS Hp Hq).
    rewrite (member_swap_store s q p Q P HF HS Hq Hp). f_equal.
    destruct (decide (p = q)) as [->|N].
    + rewrite Hp in Hq. by injection Hq as ->.
    + by apply insert_insert_ne.
  - rewrite (member_swap_store s p p P P HF HS Hp Hp). f_equal.
    rewrite insert_insert_eq. by apply insert_id.
Qed.



End SwapMore.

Lemma swap_uses_element_swap_witness :
  (1%positive <> 2%positive /\
   Samples.all_boxed !! 1%positive = Some Samples.origin /\
   Samples.all_boxed !! 2%positive = Some Samples.unit_x) /\
  exists s',
    member_swap Types.point Types.name 1 2 Samples.all_boxed = Ok tt s' /\
    holds Types.point Types.name s' 1 (1, 0, 0)%Z ("x", "axis") /\
    holds Types.point Types.name s' 2 (0, 0, 0)%Z ("o", "origin") /\
    forall l : loc, l <> 1%positive -> l <> 2%positive -> s' !! l = Samples.all_boxed !! l.
Proof.
  split; [repeat split; discriminate|].
  apply (swap_uses_element_swap Types.point Types.name Samples.all_boxed
           1%positive 2%positive Samples.origin Samples.unit_x).
  - discriminate.
  - reflexivity.
  - reflexivity.
Defined.

Lemma swap_twice_restores_witness :
  (Swappable Types.empty /\ Swappable Types.int /\
   Samples.mixed !! 1%positive = Some Samples.three /\
   Samples.mixed !! 2%positive = Some Samples.four) /\
  (member_swap Types.empty Types.int 1 2;; member_swap Types.empty Types.int 1 2)
    Samples.mixed
  = Ok tt Samples.mixed.
Proof.
  split; [repeat split; intros ? ?; reflexivity|].
  apply (swap_twice_restores Types.empty Types.int Samples.mixed
           1%positive 2%positive Samples.three Samples.four).
  - intros ? ?; reflexivity.
  - intros ? ?; reflexivity.
  - reflexivity.
  - reflexivity.
Defined.

Lemma swap_symmetric_witness :
  (Swappable Types.point /\ Swappable Types.name /\
   Samples.all_boxed !! 1%positive = Some Samples.origin /\
   Samples.all_boxed !! 2%positive = Some Samples.unit_x) /\
  member_swap Types.point Types.name 1 2 Samples.all_boxed
  = member_swap Types.point Types.name 2 1 Samples.all_boxed /\
  member_swap Types.point Types.name 1 1 Samples.all_boxed = Ok tt Samples.all_boxed.
Proof.
  split.
  - split; [intros [[? ?] ?] [[? ?] ?]; reflexivity|].
    split; [intros ? ?; reflexivity|]. split; reflexivity.
  - apply (swap_symmetric Types.point Types.name Samples.all_boxed
             1%positive 2%positive Samples.origin Samples.unit_x).
    + intros [[? ?] ?] [[? ?] ?]; reflexivity.
    + intros ? ?; reflexivity.
    + reflexivity.
    + reflexivity.
Defined.

(** ** More on construction *)

Section ConstructionMore.

Context {Val : Type} (First Second : cpp_type Val).

Implicit Types (s : gmap loc (compressed_pair First Second)) (l : loc).

(** X5: the value constructor takes arguments of any types from which
    [First] and [Second] can be initialised, conversions included; the pair
    is built where no object was and holds [First{arg}] and
    [Second{other}]. *)
Theorem values_converting {Arg Other}
    `{!Constructible First Arg} `{!Constructible Second Other}
    (arg : Arg) (other : Other) s :
  exists l s',
    compressed_pair_values First Second arg other s = Ok l s' /\
    s !! l = None /\
    holds First Second s' l (direct_init arg) (direct_init other).
Proof.
  unfold compressed_pair_values.
  destruct (alloc_holds First Second s
    (CompressedPair First Second
       (internal.element_forward First 0 _ arg)
       (internal.element_forward Second 1 _ other))) as (l & s' & Hrun & Hl & Hs' & Hh).
  exists l, s'. split; [exact Hrun|]. split; [exact Hl|].
  unfold first_of, second_of in Hh. simpl in Hh.
  by rewrite !get_const_forward in Hh.
Qed.

Lemma element_piecewise_empty (T : cpp_type Val) (Tag : nat) ebco :
  list_init T [] = value_init T ->
  internal.element_piecewise T Tag ebco [] (index_sequence_for (@nil Val)) =
  internal.element_default T Tag ebco.
Proof.
  intros H. unfold internal.element_piecewise, internal.element_default.
  unfold is_default_constructible_v. simpl. rewrite H.
  by destruct ebco, (value_init T).
Qed.

Lemma element_default_disabled (T : cpp_type Val) (Tag : nat) ebco :
  is_default_constructible_v T = false -> internal.element_default T Tag ebco = None.
Proof. intros H. unfold internal.element_default. rewrite H. by destruct ebco. Qed.

(** X7: for types whose initialisation from no argument is their value
    initialisation, piecewise construction from two empty tuples is default
    construction: accepted or rejected alike, with the same pair built. *)
Theorem piecewise_empty_is_default s :
  list_init First [] = value_init First ->
  list_init Second [] = value_init Second ->
  compressed_pair_piecewise First Second [] [] s = compressed_pair_default First Second s.
Proof.
  intros HF HS.
  unfold compressed_pair_piecewise, compressed_pair_default.
  rewrite (element_piecewise_empty First 0 _ HF), (element_piecewise_empty Second 1 _ HS).
  destruct (is_default_constructible_v First) eqn:EF.
  - destruct (is_default_constructible_v Second) eqn:ES; [reflexivity|].
    rewrite (element_default_disabled Second 1 _ ES).
    rewrite run_bind.
    by destruct (internal.element_default First 0 (is_ebco_eligible_v First)).
  - by rewrite (element_default_disabled First 0 _ EF).
Qed.

End ConstructionMore.

Lemma piecewise_empty_is_default_witness :
  (list_init Types.empty [] = value_init Types.empty /\
   list_init Types.int [] = value_init Types.int) /\
  compressed_pair_piecewise Types.empty Types.int [] [] Samples.mixed
  = compressed_pair_default Types.empty Types.int Samples.mixed.
Proof.
  split; [split; reflexivity|].
  apply (piecewise_empty_is_default Types.empty Types.int Samples.mixed); reflexivity.
Defined.

(** ** Assignment through the accessors, copies and moves *)

Section AssignMore.

Context {Val : Type} (First Second : cpp_type Val).

Implicit Types (s : gmap loc (compressed_pair First Second)) (p q l : loc).
Implicit Types (o P Q : compressed_pair First Second).

Lemma assign_first_Some s l o v :
  s !! l = Some o ->
  assign_first First Second l v s =
  Ok tt (<[l := update (first_path First Second) o
                  (copy_assign First (first_of First Second o) v)]> s).
Proof.
  intros H. unfold assign_first.
  rewrite run_bind, (first_Some _ _ _ _ _ H). by apply assign_Some.
Qed.

Lemma assign_second_Some s l o w :
  s !! l = Some o ->
  assign_second First Second l w s =
  Ok tt (<[l := update (second_path First Second) o
                  (copy_assign Second (second_of First Second o) w)]> s).
Proof.
  intros H. unfold assign_second.
  rewrite run_bind, (second_Some _ _ _ _ _ H). by apply assign_Some.
Qed.

Lemma update_first_twice o x y :
  update (first_path First Second) (update (first_path First Second) o x) y
  = update (first_path First Second) o y.
Proof.
  apply pair_ext.
  - by rewrite !first_of_update_first.
  - by rewrite !second_of_update_first.
Qed.

Lemma update_second_twice o x y :
  update (second_path First Second) (update (second_path First Second) o x) y
  = update (second_path First Second) o y.
Proof.
  apply pair_ext.
  - by rewrite !first_of_update_second.
  - by rewrite !second_of_update_second.
Qed.

(** X8: for copy assignable element types, after [p.first() = v] the pair
    holds [v] and its old second value, after [p.second() = w] its old first
    value and [w]; no other object changes; and of two assignments to the
    same slot in a row only the last one shows. *)
Theorem assign_then_read s l o (v v' : First) (w w' : Second) :
  CopyAssignable First -> CopyAssignable Second ->
  s !! l = Some o ->
  (exists s', assign_first First Second l v s = Ok tt s' /\
              holds First Second s' l v (second_of First Second o) /\
              forall l', l' <> l -> s' !! l' = s !! l') /\
  (exists s', assign_second First Second l w s = Ok tt s' /\
              holds First Second s' l (first_of First Second o) w /\
              forall l', l' <> l -> s' !! l' = s !! l') /\
  (assign_first First Second l v';; assign_first First Second l v) s
  = assign_first First Second l v s /\
  (assign_second First Second l w';; assign_second First Second l w) s
  = assign_second First Second l w s.
Proof.
  intros HF HS H. split; [|split; [|split]].
  - eexists. split; [by apply assign_first_Some|]. split.
    + pose proof (holds_Some First Second _ l _ (lookup_insert_eq s l
        (update (first_path First Second) o
           (copy_assign First (first_of First Second o) v)))) as Hh.
      rewrite first_of_update_first, second_of_update_first in Hh.
      by rewrite HF in Hh |- *.
    + intros l' N. by rewrite lookup_insert_ne.
  - eexists. split; [by apply assign_second_Some|]. split.
    + pose proof (holds_Some First Second _ l _ (lookup_insert_eq s l
        (update (second_path First Second) o
           (copy_assign Second (second_of First Second o) w)))) as Hh.
      rewrite first_of_update_second, second_of_update_second in Hh.
      by rewrite HS in Hh |- *.
    + intros l' N. by rewrite lookup_insert_ne.
  - rewrite run_bind, (assign_first_Some _ _ _ _ H).
    rewrite (assign_first_Some _ _ _ _ (lookup_insert_eq _ _ _)).
    rewrite (assign_first_Some _ _ _ _ H).
    by rewrite insert_insert_eq, !HF, update_first_twice.
  - rewrite run_bind, (assign_second_Some _ _ _ _ H).
    rewrite (assign_second_Some _ _ _ _ (lookup_insert_eq _ _ _)).
    rewrite (assign_second_Some _ _ _ _ H).
    by rewrite insert_insert_eq, !HS, update_second_twice.
Qed.

(** X9: a pair made by the copy constructor shares nothing with the
    original: assignments through the accessors of the copy leave the
    original the object it was, and assignments through the accessors of
    the original leave the copy holding the values it was made with. *)
Theorem copy_is_independent s q Q :
  CopyConstructible First -> CopyConstructible Second ->
  s !! q = Some Q ->
  exists l s1,
    compressed_pair_copy First Second q s = Ok l s1 /\
    l <> q /\
    (forall v w, exists s2,
       (assign_first First Second l v;; assign_second First Second l w) s1 = Ok tt s2 /\
       s2 !! q = Some Q) /\
    (forall v w, exists s2,
       (assign_first First Second q v;; assign_second First Second q w) s1 = Ok tt s2 /\
       holds First Second s2 l (first_of First Second Q) (second_of First Second Q)).
Proof.
  intros HF HS Hq.
  destruct (copy_construct_step First Second s q Q HF HS Hq) as (l & s1 & Hrun & Hl & ->).
  assert (l <> q) as N by (intros ->; by rewrite Hl in Hq).
  exists l, (<[l := Q]> s). split; [exact Hrun|]. split; [exact N|]. split.
  - intros v w. eexists. split.
    + rewrite run_bind, (assign_first_Some _ _ _ _ (lookup_insert_eq _ _ _)).
      apply assign_second_Some, lookup_insert_eq.
    + by rewrite !lookup_insert_ne.
  - intros v w.
    assert (<[l := Q]> s !! q = Some Q) as Hq1 by by rewrite lookup_insert_ne.
    eexists. split.
    + rewrite run_bind, (assign_first_Some _ _ _ _ Hq1).
      apply assign_second_Some, lookup_insert_eq.
    + apply holds_Some. rewrite !lookup_insert_ne by done. apply lookup_insert_eq.
Qed.

End AssignMore.

Lemma assign_then_read_witness :
  (CopyAssignable Types.int /\ CopyAssignable Types.int /\
   ({[1%positive := Samples.ints]} : gmap loc _) !! 1%positive = Some Samples.ints) /\
  let s : gmap loc _ := {[1%positive := Samples.ints]} in
  (exists s', assign_first Types.int Types.int 1 7%Z s = Ok tt s' /\
              holds Types.int Types.int s' 1 7%Z 2%Z /\
              forall l' : loc, l' <> 1%positive -> s' !! l' = s !! l') /\
  (exists s', assign_second Types.int Types.int 1 9%Z s = Ok tt s' /\
              holds Types.int Types.int s' 1 1%Z 9%Z /\
              forall l' : loc, l' <> 1%positive -> s' !! l' = s !! l') /\
  (assign_first Types.int Types.int 1 5%Z;; assign_first Types.int Types.int 1 7%Z) s
  = assign_first Types.int Types.int 1 7%Z s /\
  (assign_second Types.int Types.int 1 6%Z;; assign_second Types.int Types.int 1 9%Z) s
  = assign_second Types.int Types.int 1 9%Z s.
Proof.
  split; [repeat split; intros ? ?; reflexivity|].
  apply (assign_then_read Types.int Types.int {[1%positive := Samples.ints]}
           1%positive Samples.ints 7%Z 5%Z 9%Z 6%Z).
  - intros ? ?; reflexivity.
  - intros ? ?; reflexivity.
  - reflexivity.
Defined.

Lemma copy_is_independent_witness :
  (CopyConstructible Types.empty /\ CopyConstructible Types.int /\
   Samples.mixed !! 2%positive = Some Samples.four) /\
  exists l s1,
    compressed_pair_copy Types.empty Types.int 2 Samples.mixed = Ok l s1 /\
    l <> 2%positive /\
    (forall v w, exists s2,
       (assign_first Types.empty Types.int l v;; assign_second Types.empty Types.int l w) s1
       = Ok tt s2 /\
       s2 !! 2%positive = Some Samples.four) /\
    (forall v w, exists s2,
       (assign_first Types.empty Types.int 2 v;; assign_second Types.empty Types.int 2 w) s1
       = Ok tt s2 /\
       holds Types.empty Types.int s2 l tt 4%Z).
Proof.
  split; [repeat split; intros ?; reflexivity|].
  apply (copy_is_independent Types.empty Types.int Samples.mixed 2%positive Samples.four).
  - intros ?; reflexivity.
  - intros ?; reflexivity.
  - reflexivity.
Defined.

(** ** Moves *)

Section MoveFacts.

Context {Val : Type} (First Second : cpp_type Val).
Context `{!Movable First} `{!Movable Second}.

Implicit Types (s : gmap loc (compressed_pair First Second)) (p q l : loc).
Implicit Types (o P Q : compressed_pair First Second).

Lemma get_const_move_new (T : cpp_type Val) `{!Movable T} Tag ebco
    (e : internal.compressed_pair_element T Tag ebco) :
  internal.get_const T Tag (element_move T Tag e).1
  = move_construct T (internal.get_const T Tag e).
Proof. by destruct e. Qed.

Lemma get_const_move_old (T : cpp_type Val) `{!Movable T} Tag ebco
    (e : internal.compressed_pair_element T Tag ebco) :
  internal.get_const T Tag (element_move T Tag e).2
  = moved_from T (internal.get_const T Tag e).
Proof. by destruct e. Qed.

Lemma get_const_self_move_assign (T : cpp_type Val) `{!Movable T} Tag ebco
    (e : internal.compressed_pair_element T Tag ebco) :
  internal.get_const T Tag (element_self_move_assign T Tag e)
  = self_move_assign T (internal.get_const T Tag e).
Proof. apply get_const_update. Qed.

Lemma get_const_move_assign_this (T : cpp_type Val) `{!Movable T} Tag ebco
    (e e' : internal.compressed_pair_element T Tag ebco) :
  internal.get_const T Tag (element_move_assign T Tag e e').1
  = (move_assign T (internal.get_const T Tag e) (internal.get_const T Tag e')).1.
Proof. apply get_const_update. Qed.

Lemma get_const_move_assign_other (T : cpp_type Val) `{!Movable T} Tag ebco
    (e e' : internal.compressed_pair_element T Tag ebco) :
  internal.get_const T Tag (element_move_assign T Tag e e').2
  = (move_assign T (internal.get_const T Tag e) (internal.get_const T Tag e')).2.
Proof. apply get_const_update. Qed.

(** X10: the move constructor, for move constructible element types, builds
    at a location that held no object a pair with the values of the source;
    the source is still an object, now holding what a move leaves of each
    of its two values, and no other object changes. *)
Theorem move_construct_holds s q Q :
  MoveConstructible First -> MoveConstructible Second ->
  s !! q = Some Q ->
  exists l s',
    compressed_pair_move First Second q s = Ok l s' /\
    l <> q /\ s !! l = None /\
    holds First Second s' l (first_of First Second Q) (second_of First Second Q) /\
    holds First Second s' q
      (moved_from First (first_of First Second Q))
      (moved_from Second (second_of First Second Q)) /\
    forall l', l' <> l -> l' <> q -> s' !! l' = s !! l'.
Proof.
  intros HF HS Hq. unfold compressed_pair_move.
  rewrite run_bind, (load_Some _ _ _ Hq).
  rewrite run_bind, (store_Some _ _ _ _ Hq).
  set (Q' := CompressedPair First Second
               (element_move First 0 (first_base First Second Q)).2
               (element_move Second 1 (second_base First Second Q)).2).
  set (N := CompressedPair First Second
              (element_move First 0 (first_base First Second Q)).1
              (element_move Second 1 (second_base First Second Q)).1).
  destruct (alloc_holds First Second (<[q := Q']> s) N) as (l & s' & Hrun & Hl & -> & Hh).
  assert (l <> q) as Nlq by (intros ->; by rewrite lookup_insert_eq in Hl).
  exists l, (<[l := N]> (<[q := Q']> s)). split; [exact Hrun|]. split; [exact Nlq|].
  split; [by rewrite lookup_insert_ne in Hl|]. split; [|split].
  - unfold first_of, second_of, N in Hh. simpl in Hh.
    by rewrite !get_const_move_new, HF, HS in Hh.
  - pose proof (holds_Some First Second (<[l := N]> (<[q := Q']> s)) q Q') as Hq'.
    rewrite lookup_insert_ne, lookup_insert_eq in Hq' by done.
    specialize (Hq' eq_refl). unfold first_of, second_of, Q' in Hq'. simpl in Hq'.
    by rewrite !get_const_move_old in Hq'.
  - intros l' N1 N2. by rewrite !lookup_insert_ne.
Qed.

Lemma move_assignment_self s p P :
  s !! p = Some P ->
  move_assignment First Second p p s =
  Ok p (<[p := CompressedPair First Second
                 (element_self_move_assign First 0 (first_base First Second P))
                 (element_self_move_assign Second 1 (second_base First Second P))]> s).
Proof.
  intros Hp. unfold move_assignment. rewrite decide_True by done.
  rewrite run_bind, (load_Some _ _ _ Hp).
  rewrite run_bind, (store_Some _ _ _ _ Hp).
  rewrite run_bind, (load_Some _ _ _ (lookup_insert_eq _ _ _)).
  rewrite run_bind, (store_Some _ _ _ _ (lookup_insert_eq _ _ _)).
  by rewrite run_ret, insert_insert_eq.
Qed.

Lemma move_assignment_ne s p q P Q :
  p <> q -> s !! p = Some P -> s !! q = Some Q ->
  move_assignment First Second p q s =
  Ok p (<[q := CompressedPair First Second
                 (element_move_assign First 0
                    (first_base First Second P) (first_base First Second Q)).2
                 (element_move_assign Second 1
                    (second_base First Second P) (second_base First Second Q)).2]>
          (<[p := CompressedPair First Second
                    (element_move_assign First 0
                       (first_base First Second P) (first_base First Second Q)).1
                    (element_move_assign Second 1
                       (second_base First Second P) (second_base First Second Q)).1]> s)).
Proof.
  intros N Hp Hq. unfold move_assignment. rewrite decide_False by done.
  rewrite run_bind, (load_Some _ _ _ Hp).
  rewrite run_bind, (load_Some _ _ _ Hq).
  rewrite run_bind, (store_Some _ _ _ _ Hp).
  rewrite run_bind, (store_Some _ q Q) by by rewrite lookup_insert_ne.
  rewrite run_bind, (load_Some _ p _ (eq_trans (lookup_insert_ne _ _ _ _ (not_eq_sym N))
                                               (lookup_insert_eq _ _ _))).
  rewrite run_bind, (load_Some _ q _ (lookup_insert_eq _ _ _)).
  rewrite run_bind.
  erewrite store_Some
    by (rewrite lookup_insert_ne by done; apply lookup_insert_eq).
  rewrite run_bind.
  erewrite store_Some
    by (rewrite lookup_insert_ne by done; apply lookup_insert_eq).
  rewrite run_ret. f_equal. simpl.
  apply map_eq. intros l.
  destruct (decide (l = q)) as [->|Nq]; [by rewrite !lookup_insert_eq|].
  rewrite !(lookup_insert_ne _ q l) by done.
  destruct (decide (l = p)) as [->|Np]; [by rewrite !lookup_insert_eq|].
  by rewrite !lookup_insert_ne.
Qed.

(** X11: move assignment between two different pairs, for move assignable
    element types, leaves the target holding the values of the source and
    the source holding what the two element move assignments leave of them;
    a pair move assigned from itself holds what the self move assignments
    of its two values give.  The target is returned, both pairs are still
    objects, and no other object changes. *)
Theorem move_assignment_holds s p q P Q :
  MoveAssignable First -> MoveAssignable Second ->
  s !! p = Some P -> s !! q = Some Q ->
  exists s',
    move_assignment First Second p q s = Ok p s' /\
    (if decide (p = q)
     then holds First Second s' p
            (self_move_assign First (first_of First Second P))
            (self_move_assign Second (second_of First Second P))
     else holds First Second s' p (first_of First Second Q) (second_of First Second Q) /\
          holds First Second s' q
            (move_assign First (first_of First Second P) (first_of First Second Q)).2
            (move_assign Second (second_of First Second P) (second_of First Second Q)).2) /\
    forall l, l <> p -> l <> q -> s' !! l = s !! l.
Proof.
  intros HF HS Hp Hq. destruct (decide (p = q)) as [->|N].
  - assert (Q = P) as -> by congruence.
    eexists. split; [by apply move_assignment_self|]. split.
    + pose proof (holds_Some First Second _ q _ (lookup_insert_eq s q
        (CompressedPair First Second
           (element_self_move_assign First 0 (first_base First Second P))
           (element_self_move_assign Second 1 (second_base First Second P))))) as Hh.
      unfold first_of, second_of in Hh. cbn [first_base second_base] in Hh.
      by rewrite !get_const_self_move_assign in Hh.
    + intros l N _. by rewrite lookup_insert_ne.
  - eexists. split; [by apply move_assignment_ne|]. split; [split|].
    + match goal with |- holds _ _ (<[q := ?Q2]> (<[p := ?P2]> s)) _ _ _ =>
        pose proof (holds_Some First Second (<[q := Q2]> (<[p := P2]> s)) p P2) as Hh
      end.
      rewrite lookup_insert_ne, lookup_insert_eq in Hh by done.
      specialize (Hh eq_refl).
      unfold first_of, second_of in Hh. cbn [first_base second_base] in Hh.
      by rewrite !get_const_move_assign_this, HF, HS in Hh.
    + match goal with |- holds _ _ (<[q := ?Q2]> (<[p := ?P2]> s)) _ _ _ =>
        pose proof (holds_Some First Second _ q _
                      (lookup_insert_eq (<[p := P2]> s) q Q2)) as Hh
      end.
      unfold first_of, second_of in Hh. cbn [first_base second_base] in Hh.
      by rewrite !get_const_move_assign_other in Hh.
    + intros l Np Nq. by rewrite !lookup_insert_ne.
Qed.

End MoveFacts.

Lemma move_construct_holds_witness :
  (MoveConstructible Types.point /\ MoveConstructible Types.name /\
   Samples.all_boxed !! 2%positive = Some Samples.unit_x) /\
  exists l s',
    compressed_pair_move Types.point Types.name 2 Samples.all_boxed = Ok l s' /\
    l <> 2%positive /\ Samples.all_boxed !! l = None /\
    holds Types.point Types.name s' l (1, 0, 0)%Z ("x", "axis") /\
    holds Types.point Types.name s' 2 (1, 0, 0)%Z (EmptyString, EmptyString) /\
    forall l' : loc, l' <> l -> l' <> 2%positive -> s' !! l' = Samples.all_boxed !! l'.
Proof.
  split; [repeat split; intros ?; reflexivity|].
  refine (move_construct_holds Types.point Types.name Samples.all_boxed
            2%positive Samples.unit_x _ _ _).
  - intros ?; reflexivity.
  - intros ?; reflexivity.
  - reflexivity.
Defined.

Lemma move_assignment_holds_witness :
  (MoveAssignable Types.point /\ MoveAssignable Types.name /\
   Samples.all_boxed !! 1%positive = Some Samples.origin /\
   Samples.all_boxed !! 2%positive = Some Samples.unit_x) /\
  exists s',
    move_assignment Types.point Types.name 1 2 Samples.all_boxed = Ok 1%positive s' /\
    (holds Types.point Types.name s' 1 (1, 0, 0)%Z ("x", "axis") /\
     holds Types.point Types.name s' 2 (1, 0, 0)%Z (EmptyString, EmptyString)) /\
    forall l : loc, l <> 1%positive -> l <> 2%positive -> s' !! l = Samples.all_boxed !! l.
Proof.
  split; [repeat split; intros ? ?; reflexivity|].
  refine (move_assignment_holds Types.point Types.name Samples.all_boxed
            1%positive 2%positive Samples.origin Samples.unit_x _ _ _ _).
  - intros ? ?; reflexivity.
  - intros ? ?; reflexivity.
  - reflexivity.
  - reflexivity.
Defined.

(** ** The pair under either layout *)

Section Transparency.

Context {Val : Type} (First Second : cpp_type Val) (ebco1 ebco2 : bool).

Abbreviation First' := (relayout First ebco1).
Abbreviation Second' := (relayout Second ebco2).
Abbreviation sim := (similar_stores First Second ebco1 ebco2).
Abbreviation rel := (agree_from_similar First Second ebco1 ebco2).

Lemma similar_stores_dom s s' : sim s s' -> dom s = dom s'.
Proof.
  intros H. apply set_eq. intros l. rewrite !elem_of_dom. specialize (H l).
  destruct (s !! l), (s' !! l); try done; split; intros [? ?]; by eauto.
Qed.

Lemma similar_stores_insert s s' l o o' :
  sim s s' -> similar First Second ebco1 ebco2 o o' -> sim (<[l := o]> s) (<[l := o']> s').
Proof.
  intros H Ho l'. destruct (decide (l' = l)) as [->|N].
  - by rewrite !lookup_insert_eq.
  - rewrite !lookup_insert_ne by done. apply H.
Qed.

Lemma similar_stores_empty : sim ∅ ∅.
Proof. intros l. by rewrite !lookup_empty. Qed.

Lemma rel_ret {A A'} (R : A -> A' -> Prop) a a' :
  R a a' -> rel R (mret a) (mret a').
Proof. intros H s s' Hs. by split. Qed.

Lemma rel_bind {A A' B B'} (R : A -> A' -> Prop) (Q : B -> B' -> Prop) m m' k k' :
  rel R m m' ->
  (forall a a', R a a' -> rel Q (k a) (k' a')) ->
  rel Q (m ≫= k) (m' ≫= k').
Proof.
  intros Hm Hk s s' Hs. rewrite !run_bind. specialize (Hm s s' Hs).
  unfold agree_with in Hm.
  destruct (m s) as [a t| |], (m' s') as [a' t'| |]; try done.
  destruct Hm as [Ha Ht]. by apply Hk.
Qed.

Lemma rel_reject {A A'} (R : A -> A' -> Prop) : rel R reject reject.
Proof. by intros s s' Hs. Qed.

Lemma rel_well_formed {A A'} (R : A -> A' -> Prop) (o : option A) (o' : option A') :
  match o, o' with
  | Some a, Some a' => R a a'
  | None, None => True
  | _, _ => False
  end ->
  rel R (well_formed o) (well_formed o').
Proof.
  destruct o, o'; try done. Qed.

Lemma rel_load l : rel (similar First Second ebco1 ebco2) (load l) (load l).
Proof.
  intros s s' Hs. unfold load. pose proof (Hs l) as H.
  by destruct (s !! l), (s' !! l).
Qed.

Lemma rel_store l o o' :
  similar First Second ebco1 ebco2 o o' -> rel eq (store l o) (store l o').
Proof.
  intros Ho s s' Hs. unfold store. pose proof (Hs l) as H.
  destruct (s !! l), (s' !! l); try done.
  split; [reflexivity|]. by apply similar_stores_insert.
Qed.

Lemma rel_alloc o o' :
  similar First Second ebco1 ebco2 o o' -> rel eq (alloc o) (alloc o').
Proof.
  intros Ho s s' Hs. unfold alloc. simpl.
  rewrite (similar_stores_dom s s' Hs).
  split; [reflexivity|]. by apply similar_stores_insert.
Qed.

Lemma rel_read {T} r r' :
  similar_refs First Second ebco1 ebco2 (T := T) r r' -> rel eq (read r) (read r').
Proof.
  intros [Ht Hp]. unfold read. rewrite Ht.
  apply rel_bind with (similar First Second ebco1 ebco2); [apply rel_load|].
  intros o o' Ho. apply rel_ret. by apply Hp.
Qed.

Lemma rel_read_const {T} r r' :
  similar_const_refs First Second ebco1 ebco2 (T := T) r r' ->
  rel eq (read_const r) (read_const r').
Proof.
  intros [Ht Hp]. unfold read_const. rewrite Ht.
  apply rel_bind with (similar First Second ebco1 ebco2); [apply rel_load|].
  intros o o' Ho. apply rel_ret. by apply Hp.
Qed.

Lemma rel_write {T} r r' (v : T) :
  similar_refs First Second ebco1 ebco2 r r' -> rel eq (write r v) (write r' v).
Proof.
  intros [Ht Hp]. unfold write. rewrite Ht.
  apply rel_bind with (similar First Second ebco1 ebco2); [apply rel_load|].
  intros o o' Ho. apply rel_store. by apply Hp.
Qed.

Lemma similar_intro f e f' e' :
  internal.get_const First 0 f = internal.get_const First' 0 f' ->
  internal.get_const Second 1 e = internal.get_const Second' 1 e' ->
  similar First Second ebco1 ebco2
    (CompressedPair First Second f e) (CompressedPair First' Second' f' e').
Proof. intros Hf He. by split. Qed.

Lemma similar_first_refs l :
  similar_refs First Second ebco1 ebco2
    (Ref l (first_path First Second)) (Ref l (first_path First' Second')).
Proof.
  split; [reflexivity|]. intros o o' [Hf Hs]. split; [exact Hf|].
  intros v. split.
  - by rewrite (first_of_update_first First Second), (first_of_update_first First' Second').
  - exact Hs.
Qed.

Lemma similar_second_refs l :
  similar_refs First Second ebco1 ebco2
    (Ref l (second_path First Second)) (Ref l (second_path First' Second')).
Proof.
  split; [reflexivity|]. intros o o' [Hf Hs]. split; [exact Hs|].
  intros v. split.
  - exact Hf.
  - by rewrite (second_of_update_second First Second),
         (second_of_update_second First' Second').
Qed.

Lemma rel_first l :
  rel (similar_refs First Second ebco1 ebco2)
    (first First Second l) (first First' Second' l).
Proof.
  unfold first. apply rel_bind with (similar First Second ebco1 ebco2); [apply rel_load|].
  intros _ _ _. apply rel_ret, similar_first_refs.
Qed.

Lemma rel_second l :
  rel (similar_refs First Second ebco1 ebco2)
    (second First Second l) (second First' Second' l).
Proof.
  unfold second. apply rel_bind with (similar First Second ebco1 ebco2); [apply rel_load|].
  intros _ _ _. apply rel_ret, similar_second_refs.
Qed.

Lemma rel_assign (T : cpp_type Val) (ebco : bool) r r' (v : T) :
  similar_refs First Second ebco1 ebco2 r r' ->
  rel eq (assign (T := T) r v) (assign (T := relayout T ebco) r' v).
Proof.
  intros H. unfold assign. apply rel_bind with eq; [by apply rel_read|].
  intros old ? <-. by apply rel_write.
Qed.

Lemma rel_using_std_swap (T : cpp_type Val) (ebco : bool) a a' b b' :
  similar_refs First Second ebco1 ebco2 a a' ->
  similar_refs First Second ebco1 ebco2 b b' ->
  rel eq (using_std_swap (T := T) a b) (using_std_swap (T := relayout T ebco) a' b').
Proof.
  intros Ha Hb. unfold using_std_swap.
  apply rel_bind with eq; [by apply rel_read|]. intros x ? <-.
  apply rel_bind with eq; [by apply rel_read|]. intros y ? <-.
  apply rel_bind with eq; [by apply rel_write|]. intros _ _ _.
  by apply rel_write.
Qed.

Lemma rel_member_swap p q :
  rel eq (member_swap First Second p q) (member_swap First' Second' p q).
Proof.
  unfold member_swap.
  eapply rel_bind; [apply rel_first|]. intros a a' Ha.
  eapply rel_bind; [apply rel_first|]. intros b b' Hb.
  eapply rel_bind; [by apply (rel_using_std_swap First ebco1)|]. intros _ _ _.
  eapply rel_bind; [apply rel_second|]. intros c c' Hc.
  eapply rel_bind; [apply rel_second|]. intros d d' Hd.
  by apply (rel_using_std_swap Second ebco2).
Qed.

Lemma rel_copy q :
  rel eq (compressed_pair_copy First Second q) (compressed_pair_copy First' Second' q).
Proof.
  unfold compressed_pair_copy.
  eapply rel_bind; [apply rel_load|]. intros o o' [Hf Hs].
  apply rel_alloc, similar_intro.
  - rewrite (get_const_copy First), (get_const_copy First'). simpl.
    unfold first_of in Hf. by rewrite Hf.
  - rewrite (get_const_copy Second), (get_const_copy Second'). simpl.
    unfold second_of in Hs. by rewrite Hs.
Qed.

Lemma rel_copy_assignment p q :
  rel eq (copy_assignment First Second p q) (copy_assignment First' Second' p q).
Proof.
  unfold copy_assignment.
  eapply rel_bind; [apply rel_load|]. intros P P' [HfP HsP].
  eapply rel_bind; [apply rel_load|]. intros Q Q' [HfQ HsQ].
  eapply rel_bind.
  { apply rel_store, similar_intro; [|exact HsP].
    rewrite (get_const_assign First), (get_const_assign First'). simpl.
    unfold first_of in HfP, HfQ. by rewrite HfP, HfQ. }
  intros _ _ _.
  eapply rel_bind; [apply rel_load|]. intros P1 P1' [HfP1 HsP1].
  eapply rel_bind; [apply rel_load|]. intros Q1 Q1' [HfQ1 HsQ1].
  eapply rel_bind.
  { apply rel_store, similar_intro; [exact HfP1|].
    rewrite (get_const_assign Second), (get_const_assign Second'). simpl.
    unfold second_of in HsP1, HsQ1. by rewrite HsP1, HsQ1. }
  intros _ _ _. by apply rel_ret.
Qed.

Lemma fmap_eq_related {A A' B} (f : A -> B) (g : A' -> B) (x : option A) (y : option A') :
  f <$> x = g <$> y ->
  match x, y with
  | Some a, Some a' => f a = g a'
  | None, None => True
  | _, _ => False
  end.
Proof. destruct x, y; simpl; intros H; try done. by injection H. Qed.

Lemma rel_default :
  rel eq (compressed_pair_default First Second) (compressed_pair_default First' Second').
Proof.
  unfold compressed_pair_default.
  change (is_default_constructible_v First') with (is_default_constructible_v First).
  change (is_default_constructible_v Second') with (is_default_constructible_v Second).
  destruct (is_default_constructible_v First && is_default_constructible_v Second);
    [|apply rel_reject].
  eapply rel_bind.
  { apply rel_well_formed, (fmap_eq_related (internal.get_const First 0)
                              (internal.get_const First' 0)).
    by rewrite (get_const_default First), (get_const_default First'). }
  intros f f' Hf. eapply rel_bind.
  { apply rel_well_formed, (fmap_eq_related (internal.get_const Second 1)
                              (internal.get_const Second' 1)).
    by rewrite (get_const_default Second), (get_const_default Second'). }
  intros e e' He. by apply rel_alloc, similar_intro.
Qed.

Lemma rel_values {Arg Other} (C : Constructible First Arg) (D : Constructible Second Other)
    (arg : Arg) (other : Other) :
  rel eq (compressed_pair_values First Second arg other)
         (@compressed_pair_values _ First' Second' Arg Other C D arg other).
Proof.
  unfold compressed_pair_values. apply rel_alloc, similar_intro.
  - by rewrite (get_const_forward First), (get_const_forward First').
  - by rewrite (get_const_forward Second), (get_const_forward Second').
Qed.

Lemma rel_piecewise (args other : list Val) :
  rel eq (compressed_pair_piecewise First Second args other)
         (compressed_pair_piecewise First' Second' args other).
Proof.
  unfold compressed_pair_piecewise.
  eapply rel_bind.
  { apply rel_well_formed, (fmap_eq_related (internal.get_const First 0)
                              (internal.get_const First' 0)).
    by rewrite (get_const_piecewise First), (get_const_piecewise First'). }
  intros f f' Hf. eapply rel_bind.
  { apply rel_well_formed, (fmap_eq_related (internal.get_const Second 1)
                              (internal.get_const Second' 1)).
    by rewrite (get_const_piecewise Second), (get_const_piecewise Second'). }
  intros e e' He. by apply rel_alloc, similar_intro.
Qed.

(** X12: construction does not depend on the layout.  From similar stores,
    the default, value, piecewise and copy constructors of the pair under
    the layout of its types and under any other layout are accepted or
    rejected alike, return the same location and leave similar stores. *)
Theorem layout_transparent_construction s s' :
  similar_stores First Second ebco1 ebco2 s s' ->
  agree First Second ebco1 ebco2
    (compressed_pair_default First Second s)
    (compressed_pair_default First' Second' s') /\
  (forall Arg Other (C : Constructible First Arg) (D : Constructible Second Other)
          (arg : Arg) (other : Other),
     agree First Second ebco1 ebco2
       (compressed_pair_values First Second arg other s)
       (@compressed_pair_values _ First' Second' Arg Other C D arg other s')) /\
  (forall args other,
     agree First Second ebco1 ebco2
       (compressed_pair_piecewise First Second args other s)
       (compressed_pair_piecewise First' Second' args other s')) /\
  (forall q,
     agree First Second ebco1 ebco2
       (compressed_pair_copy First Second q s)
       (compressed_pair_copy First' Second' q s')).
Proof.
  intros H. split; [by apply rel_default|].
  split; [intros; by apply rel_values|].
  split; [intros; by apply rel_piecewise|].
  intros; by apply rel_copy.
Qed.

(** X13: the operations on constructed pairs do not depend on the layout.
    From similar stores, the four accessors read the same values, and
    assignment through [first()] and [second()], copy assignment, the member
    [swap] and the free [swap] have the same outcome and leave similar
    stores, under the layout of the types and under any other layout. *)
Theorem layout_transparent_operations s s' (p q : loc) (v : First) (w : Second) :
  similar_stores First Second ebco1 ebco2 s s' ->
  agree First Second ebco1 ebco2
    (first_value First Second p s) (first_value First' Second' p s') /\
  agree First Second ebco1 ebco2
    (second_value First Second p s) (second_value First' Second' p s') /\
  agree First Second ebco1 ebco2
    (first_const_value First Second p s) (first_const_value First' Second' p s') /\
  agree First Second ebco1 ebco2
    (second_const_value First Second p s) (second_const_value First' Second' p s') /\
  agree First Second ebco1 ebco2
    (assign_first First Second p v s) (assign_first First' Second' p v s') /\
  agree First Second ebco1 ebco2
    (assign_second First Second p w s) (assign_second First' Second' p w s') /\
  agree First Second ebco1 ebco2
    (copy_assignment First Second p q s) (copy_assignment First' Second' p q s') /\
  agree First Second ebco1 ebco2
    (member_swap First Second p q s) (member_swap First' Second' p q s') /\
  agree First Second ebco1 ebco2
    (swap First Second p q s) (swap First' Second' p q s').
Proof.
  intros H. repeat apply conj.
  - revert s s' H. unfold first_value.
    eapply rel_bind; [apply rel_first|]. intros r r' Hr. by apply rel_read.
  - revert s s' H. unfold second_value.
    eapply rel_bind; [apply rel_second|]. intros r r' Hr. by apply rel_read.
  - revert s s' H. unfold first_const_value, first_const.
    eapply rel_bind.
    { eapply rel_bind; [apply rel_load|]. intros _ _ _.
      apply (rel_ret (similar_const_refs First Second ebco1 ebco2)).
      split; [reflexivity|]. by intros o o' [Hf _]. }
    intros r r' Hr. by apply rel_read_const.
  - revert s s' H. unfold second_const_value, second_const.
    eapply rel_bind.
    { eapply rel_bind; [apply rel_load|]. intros _ _ _.
      apply (rel_ret (similar_const_refs First Second ebco1 ebco2)).
      split; [reflexivity|]. by intros o o' [_ Hs]. }
    intros r r' Hr. by apply rel_read_const.
  - revert s s' H. unfold assign_first.
    eapply rel_bind; [apply rel_first|]. intros r r' Hr.
    by apply (rel_assign First ebco1).
  - revert s s' H. unfold assign_second.
    eapply rel_bind; [apply rel_second|]. intros r r' Hr.
    by apply (rel_assign Second ebco2).
  - by apply rel_copy_assignment.
  - by apply rel_member_swap.
  - by apply rel_member_swap.
Qed.

End Transparency.

Lemma mixed_similar :
  similar_stores Types.empty Types.int false false Samples.mixed mixed_boxed.
Proof.
  unfold Samples.mixed, mixed_boxed.
  apply similar_stores_insert; [|by split].
  apply (similar_stores_insert Types.empty Types.int false false ∅ ∅);
    [apply similar_stores_empty|by split].
Qed.

Lemma layout_transparent_construction_witness :
  similar_stores Types.empty Types.int false false Samples.mixed mixed_boxed /\
  (agree Types.empty Types.int false false
     (compressed_pair_default Types.empty Types.int Samples.mixed)
     (compressed_pair_default (relayout Types.empty false) (relayout Types.int false)
        mixed_boxed) /\
   (forall Arg Other (C : Constructible Types.empty Arg) (D : Constructible Types.int Other)
           (arg : Arg) (other : Other),
      agree Types.empty Types.int false false
        (compressed_pair_values Types.empty Types.int arg other Samples.mixed)
        (@compressed_pair_values _ (relayout Types.empty false) (relayout Types.int false)
           Arg Other C D arg other mixed_boxed)) /\
   (forall args other,
      agree Types.empty Types.int false false
        (compressed_pair_piecewise Types.empty Types.int args other Samples.mixed)
        (compressed_pair_piecewise (relayout Types.empty false) (relayout Types.int false)
           args other mixed_boxed)) /\
   (forall q,
      agree Types.empty Types.int false false
        (compressed_pair_copy Types.empty Types.int q Samples.mixed)
        (compressed_pair_copy (relayout Types.empty false) (relayout Types.int false)
           q mixed_boxed))).
Proof.
  split; [exact mixed_similar|].
  apply (layout_transparent_construction Types.empty Types.int false false
           Samples.mixed mixed_boxed).
  exact mixed_similar.
Defined.

Lemma layout_transparent_operations_witness :
  similar_stores Types.empty Types.int false false Samples.mixed mixed_boxed /\
  (agree Types.empty Types.int false false
     (first_value Types.empty Types.int 1 Samples.mixed)
     (first_value (relayout Types.empty false) (relayout Types.int false) 1 mixed_boxed) /\
   agree Types.empty Types.int false false
     (second_value Types.empty Types.int 1 Samples.mixed)
     (second_value (relayout Types.empty false) (relayout Types.int false) 1 mixed_boxed) /\
   agree Types.empty Types.int false false
     (first_const_value Types.empty Types.int 1 Samples.mixed)
     (first_const_value (relayout Types.empty false) (relayout Types.int false) 1
        mixed_boxed) /\
   agree Types.empty Types.int false false
     (second_const_value Types.empty Types.int 1 Samples.mixed)
     (second_const_value (relayout Types.empty false) (relayout Types.int false) 1
        mixed_boxed) /\
   agree Types.empty Types.int false false
     (assign_first Types.empty Types.int 1 tt Samples.mixed)
     (assign_first (relayout Types.empty false) (relayout Types.int false) 1 tt
        mixed_boxed) /\
   agree Types.empty Types.int false false
     (assign_second Types.empty Types.int 1 8%Z Samples.mixed)
     (assign_second (relayout Types.empty false) (relayout Types.int false) 1 8%Z
        mixed_boxed) /\
   agree Types.empty Types.int false false
     (copy_assignment Types.empty Types.int 1 2 Samples.mixed)
     (copy_assignment (relayout Types.empty false) (relayout Types.int false) 1 2
        mixed_boxed) /\
   agree Types.empty Types.int false false
     (member_swap Types.empty Types.int 1 2 Samples.mixed)
     (member_swap (relayout Types.empty false) (relayout Types.int false) 1 2
        mixed_boxed) /\
   agree Types.empty Types.int false false
     (swap Types.empty Types.int 1 2 Samples.mixed)
     (swap (relayout Types.empty false) (relayout Types.int false) 1 2 mixed_boxed)).
Proof.
  split; [exact mixed_similar|].
  apply (layout_transparent_operations Types.empty Types.int false false
           Samples.mixed mixed_boxed 1%positive 2%positive tt 8%Z).
  exact mixed_similar.
Defined.

(** ** Copies, whatever the element types *)

Section CopyMore.

Context {Val : Type} (First Second : cpp_type Val).

Implicit Types (s : gmap loc (compressed_pair First Second)) (p q l : loc).
Implicit Types (P Q : compressed_pair First Second).

(** X14: the copy constructor and copy assignment work slot by slot with
    the copy operations of the element types, whatever these do: the new
    pair holds [First{a}] and [Second{b}] for the values [a], [b] of the
    original, the assigned pair holds what the copy assignments of [First]
    and [Second] make of its values and those of the original; the
    original, when it is another object, stays the object it was. *)
Theorem copies_are_memberwise s p q P Q :
  s !! p = Some P -> s !! q = Some Q ->
  (exists l s',
     compressed_pair_copy First Second q s = Ok l s' /\
     s !! l = None /\
     holds First Second s' l
       (copy_construct First (first_of First Second Q))
       (copy_construct Second (second_of First Second Q)) /\
     s' !! q = Some Q) /\
  (exists s',
     copy_assignment First Second p q s = Ok p s' /\
     holds First Second s' p
       (copy_assign First (first_of First Second P) (first_of First Second Q))
       (copy_assign Second (second_of First Second P) (second_of First Second Q)) /\
     (p <> q -> s' !! q = Some Q) /\
     forall l, l <> p -> s' !! l = s !! l).
Proof.
  intros Hp Hq. split.
  - unfold compressed_pair_copy. rewrite run_bind, (load_Some _ _ _ Hq).
    destruct (alloc_holds First Second s
      (CompressedPair First Second
         (internal.element_copy First 0 (first_base First Second Q))
         (internal.element_copy Second 1 (second_base First Second Q))))
      as (l & s' & Hrun & Hl & -> & Hh).
    eexists _, _. split; [exact Hrun|]. split; [exact Hl|]. split.
    + unfold first_of, second_of in Hh. cbn [first_base second_base] in Hh.
      by rewrite !get_const_copy in Hh.
    + rewrite lookup_insert_ne; [exact Hq|]. intros ->. by rewrite Hl in Hq.
  - unfold copy_assignment.
    rewrite run_bind, (load_Some _ _ _ Hp).
    rewrite run_bind, (load_Some _ _ _ Hq).
    rewrite run_bind, (store_Some _ _ _ _ Hp).
    set (P1 := CompressedPair First Second
                 (internal.element_assign First 0
                    (first_base First Second P) (first_base First Second Q))
                 (second_base First Second P)).
    assert (exists Q1, <[p := P1]> s !! q = Some Q1 /\
                       second_of First Second Q1 = second_of First Second Q)
      as (Q1 & Hq1 & HQ1).
    { destruct (decide (p = q)) as [->|N].
      - exists P1. rewrite lookup_insert_eq. split; [reflexivity|].
        rewrite Hp in Hq. by injection Hq as ->.
      - exists Q. by rewrite lookup_insert_ne. }
    rewrite run_bind, (load_Some _ _ P1 (lookup_insert_eq _ _ _)).
    rewrite run_bind, (load_Some _ _ _ Hq1).
    rewrite run_bind, (store_Some _ _ P1 _ (lookup_insert_eq _ _ _)).
    rewrite run_ret, insert_insert_eq.
    eexists. split; [reflexivity|]. split; [|split].
    + match goal with |- holds _ _ (<[p := ?P2]> s) _ _ _ =>
        pose proof (holds_Some First Second _ p _ (lookup_insert_eq s p P2)) as Hh
      end.
      unfold first_of, second_of in Hh, HQ1 |- *.
      cbn [first_base second_base P1] in Hh.
      by rewrite !get_const_assign, HQ1 in Hh.
    + intros N. by rewrite lookup_insert_ne.
    + intros l N. by rewrite lookup_insert_ne.
Qed.

End CopyMore.

Lemma copies_are_memberwise_witness :
  (Samples.all_boxed !! 1%positive = Some Samples.origin /\
   Samples.all_boxed !! 2%positive = Some Samples.unit_x) /\
  (exists l s',
     compressed_pair_copy Types.point Types.name 2 Samples.all_boxed = Ok l s' /\
     Samples.all_boxed !! l = None /\
     holds Types.point Types.name s' l (1, 0, 0)%Z ("x", "axis") /\
     s' !! 2%positive = Some Samples.unit_x) /\
  (exists s',
     copy_assignment Types.point Types.name 1 2 Samples.all_boxed = Ok 1%positive s' /\
     holds Types.point Types.name s' 1 (1, 0, 0)%Z ("x", "axis") /\
     (1%positive <> 2%positive -> s' !! 2%positive = Some Samples.unit_x) /\
     forall l : loc, l <> 1%positive -> s' !! l = Samples.all_boxed !! l).
Proof.
  split; [split; reflexivity|].
  refine (copies_are_memberwise Types.point Types.name Samples.all_boxed
            1%positive 2%positive Samples.origin Samples.unit_x _ _); reflexivity.
Defined.

(** ** Runs of the moves *)

Section MoveRuns.

Import Types Samples.

Example move_construct_run :
  (l ← compressed_pair_move point name 2;
   a ← first_value point name l;
   b ← second_value point name l;
   c ← second_value point name 2;
   mret (l, a, b, c)) all_boxed
  = Ok (3%positive, (1, 0, 0)%Z, ("x", "axis"), (EmptyString, EmptyString))
       (<[3%positive := unit_x]>
          (<[2%positive := CompressedPair point name
                             (internal.boxed (T := point) (1, 0, 0)%Z)
                             (internal.boxed (T := name) (EmptyString, EmptyString))]>
             all_boxed)).
Proof. vm_compute. reflexivity. Qed.

Example move_assignment_run :
  move_assignment point name 1 2 all_boxed
  = Ok 1%positive
       (<[1%positive := unit_x]>
          (<[2%positive := CompressedPair point name
                             (internal.boxed (T := point) (1, 0, 0)%Z)
                             (internal.boxed (T := name) (EmptyString, EmptyString))]>
             all_boxed)).
Proof. vm_compute. reflexivity. Qed.

Example move_assignment_self_run :
  move_assignment point name 2 2 all_boxed
  = Ok 2%positive
       (<[2%positive := CompressedPair point name
                          (internal.boxed (T := point) (1, 0, 0)%Z)
                          (internal.boxed (T := name) (EmptyString, EmptyString))]>
          all_boxed).
Proof. vm_compute. reflexivity. Qed.

End MoveRuns.

(** ** Runs with conversions *)

Section ConversionRuns.

Import Types Samples.

Example values_from_bool :
  (l ← compressed_pair_values int int true (lvalue 5%Z);
   a ← first_value int int l;
   b ← second_const_value int int l;
   mret (l, a, b)) ∅
  = Ok (1%positive, 1%Z, 5%Z)
       {[1%positive := CompressedPair int int (internal.boxed (T := int) 1%Z)
                                              (internal.boxed (T := int) 5%Z)]}.
Proof. vm_compute. reflexivity. Qed.

End ConversionRuns.
